(** * LIS NetCDF-to-Zarr conversion: a shallow embedding of
    [LIS_NetCDF_to_Zarr/lis_netcdf_to_zarr.py]

    The script reads a YAML configuration, globs its input files on S3,
    builds a pangeo-forge file pattern and [XarrayZarrRecipe], and runs the
    recipe with the preprocessing function [add_latlon_coords], which
    rebuilds the [lat]/[lon] coordinates of a LIS frame from its grid
    description attributes.

    Floating point.  Python floats are IEEE binary64 and the coordinates are
    produced with [dtype=np.float32] (binary32).  Values are modelled as
    rationals, and every floating-point operation of the source is modelled as
    the exact operation followed by rounding to nearest, ties to even, to a
    [p]-bit significand ([p = 53] for binary64, [p = 24] for binary32).  The
    exponent range of this rounding is unbounded: overflow to an infinity,
    subnormals and NaN are outside it, and attribute values are finite
    binary64 numbers.  Statements about coordinate values therefore carry
    hypotheses that keep every operation of the axis formula in the finite
    range of binary32 ([Spec.exact_axis]) or bound the magnitudes far below
    it; under them the model computes what IEEE arithmetic computes. *)

From Stdlib Require Import ZArith QArith Qabs Qpower List String Bool Lia.
Import ListNotations.

(* ------------------------------------------------------------------ *)
(** ** Binary floating-point rounding *)

Module Fp.

Local Open Scope Z_scope.

(** Nearest integer to [n / d] ([d > 0]), ties to even. *)
Definition div_rne (n d : Z) : Z :=
  let q := n / d in
  let r := n mod d in
  match Z.compare (2 * r) d with
  | Lt => q
  | Gt => q + 1
  | Eq => if Z.even q then q else q + 1
  end.

(** [2 ^ e] as a rational, for any integer [e]. *)
Definition pow2 (e : Z) : Q :=
  if 0 <=? e then inject_Z (2 ^ e) else Qmake 1 (Z.to_pos (2 ^ (- e))).

(** The exponent [e] of [n / d] for a [p]-bit significand:
    [2^(p-1) <= |n| / (d * 2^e) < 2^p].  [e0] is a lower estimate from the
    binary logarithms; the answer is [e0] or [e0 + 1]. *)
Definition expo (p n d : Z) : Z :=
  let e0 := Z.log2 (Z.abs n) - Z.log2 d - p in
  if 2 ^ (p - 1) * d * 2 ^ Z.max 0 (e0 + 1)
       <=? Z.abs n * 2 ^ Z.max 0 (- (e0 + 1))
  then e0 + 1 else e0.

(** Rounding of [n / d] ([d > 0]) to a [p]-bit significand. *)
Definition round_frac (p n d : Z) : Q :=
  if n =? 0 then 0%Q
  else
    let e := expo p n d in
    (inject_Z (div_rne (n * 2 ^ Z.max 0 (- e)) (d * 2 ^ Z.max 0 e)) * pow2 e)%Q.

Definition round (p : Z) (x : Q) : Q :=
  let y := Qred x in round_frac p (Qnum y) (Zpos (Qden y)).

(** binary64 and binary32 rounding, without exponent bounds: agrees with
    IEEE rounding on results of magnitude between the least normal number
    and the overflow threshold. *)
Definition f64 : Q -> Q := round 53.
Definition f32 : Q -> Q := round 24.

(** [x] is a [p]-bit floating-point number. *)
Definition representable (p : Z) (x : Q) : Prop :=
  exists m e, Z.abs m < 2 ^ p /\ (x == inject_Z m * pow2 e)%Q.

(** A sufficient, executable test: the reduced denominator is a power of two
    and the reduced numerator fits in [p] bits. *)
Definition representable_b (p : Z) (x : Q) : bool :=
  let y := Qred x in
  (Zpos (Qden y) =? 2 ^ Z.log2 (Zpos (Qden y))) && (Z.abs (Qnum y) <? 2 ^ p).



(** Rounding a rational to the nearest integer, ties to even. *)
Definition rneQ (q : Q) : Z := div_rne (Qnum q) (Zpos (Qden q)).

End Fp.

(* ------------------------------------------------------------------ *)
(** ** Python and numpy numerics *)

Module Py.
Import Fp.

Local Open Scope Q_scope.

(** [round(x, 3)] on a Python float [x]: CPython rounds the exact value of
    [x] to 3 decimal places, ties to even, and reads that decimal back as the
    nearest binary64. *)
Definition round3 (x : Q) : Q :=
  f64 (inject_Z (div_rne (Qnum x * 1000) (Zpos (Qden x))) / 1000).

(** [np.linspace(start, stop, num, endpoint=False, dtype=np.float32)].
    numpy works in binary64 ([result_type(start, stop, float(num))]):
    [delta = stop - start], [step = delta / num], [y = arange(0, num)],
    then [y *= step], or [y /= num; y *= delta] when [step == 0];
    [y += start]; finally [y.astype(float32)]. *)
Definition linspace_f32 (start stop : Q) (num : nat) : list Q :=
  match num with
  | O => []
  | S _ =>
      let n := inject_Z (Z.of_nat num) in
      let delta := f64 (stop - start) in
      let step := f64 (delta / n) in
      map (fun i =>
             let y := inject_Z (Z.of_nat i) in
             let y := if Qeq_bool step 0 then f64 (f64 (y / n) * delta)
                      else f64 (y * step) in
             f32 (f64 (y + start)))
          (seq 0 num)
  end.

(** One reconstructed axis of [add_latlon_coords]: the attribute values are
    rounded to 3 decimals, the upper bound is [corner + step * len], and the
    axis is the half-open [linspace] from the corner to that bound. *)
Definition grid_axis (corner_attr step_attr : Q) (len : nat) : list Q :=
  let corner := round3 corner_attr in
  let step := round3 step_attr in
  linspace_f32 corner (f64 (corner + f64 (step * inject_Z (Z.of_nat len)))) len.

End Py.

(* ------------------------------------------------------------------ *)
(** ** xarray datasets *)

Module Xr.

(** A cell of a data array: a number or NaN (LIS nodata cells). *)
Inductive cell := CNum (q : Q) | CNaN.

(** Attribute values as netCDF4/xarray hand them over. *)
Inductive attr_val :=
| AFloat (q : Q)      (* a finite numpy or Python float, a binary64 value *)
| AInt (z : Z)
| AStr (s : string)
| ANone.

(** Python dicts: association lists with unique keys, in insertion order. *)
Definition attr_map := list (string * attr_val).

Record variable := mkVar {
  vdims : list string;   (* dimension names *)
  vdata : list cell;     (* values, flattened in row-major order *)
  vattrs : attr_map
}.

Record dataset := mkDs {
  ds_dims : list (string * nat);       (* [ds.sizes] *)
  ds_vars : list (string * variable);  (* [ds.variables] *)
  ds_attrs : attr_map                  (* [ds.attrs] *)
}.

Inductive py_error :=
| KeyError (k : string)
| ValueError
| TypeError
| AttributeError (k : string).

Inductive result (A : Type) := Ok (a : A) | Err (e : py_error).
Arguments Ok {A} a.
Arguments Err {A} e.

Definition bind {A B} (m : result A) (f : A -> result B) : result B :=
  match m with Ok a => f a | Err e => Err e end.

Notation "'let*' x ':=' m 'in' f" := (bind m (fun x => f))
  (at level 200, x name, m at level 100, f at level 200).

Fixpoint lookup {A} (k : string) (l : list (string * A)) : option A :=
  match l with
  | [] => None
  | (k', v) :: l' => if String.eqb k k' then Some v else lookup k l'
  end.

Definition contains {A} (k : string) (l : list (string * A)) : bool :=
  match lookup k l with Some _ => true | None => false end.

(** [d[k] = v]: overwrite in place, or append a new key. *)
Fixpoint dict_set {A} (l : list (string * A)) (k : string) (v : A)
  : list (string * A) :=
  match l with
  | [] => [(k, v)]
  | (k', v') :: l' =>
      if String.eqb k k' then (k', v) :: l' else (k', v') :: dict_set l' k v
  end.

(** [d[k]] *)
Definition get_item {A} (l : list (string * A)) (k : string) : result A :=
  match lookup k l with Some v => Ok v | None => Err (KeyError k) end.

Definition size_of (ds : dataset) (d : string) : nat :=
  match lookup d (ds_dims ds) with Some n => n | None => 0 end.

(** [len(ds[k])]: a variable has the length of its first dimension (a
    0-d variable has none); a dimension without a variable is a virtual
    index of its size; anything else is a [KeyError]. *)
Definition len_item (ds : dataset) (k : string) : result nat :=
  match lookup k (ds_vars ds) with
  | Some v =>
      match vdims v with
      | d :: _ => Ok (size_of ds d)
      | [] => Err TypeError
      end
  | None =>
      match lookup k (ds_dims ds) with
      | Some n => Ok n
      | None => Err (KeyError k)
      end
  end.

(** [name_dict.get(k, k)] *)
Definition name_get (nd : list (string * string)) (k : string) : string :=
  match lookup k nd with Some v => v | None => k end.

(** [Dataset._rename_vars]: every variable is copied with renamed dimensions
    and stored under its new name; a name met twice is a [ValueError]. *)
Fixpoint rename_vars_from (nd : list (string * string))
    (vs acc : list (string * variable)) : result (list (string * variable)) :=
  match vs with
  | [] => Ok acc
  | (k, v) :: rest =>
      let name := name_get nd k in
      if contains name acc then Err ValueError
      else rename_vars_from nd rest
             (acc ++ [(name, mkVar (map (name_get nd) (vdims v)) (vdata v) (vattrs v))])
  end.

(** [Dataset._rename_dims]: [{name_dict.get(k, k): v for k, v in self.dims.items()}]. *)
Definition rename_dims (nd : list (string * string)) (dims : list (string * nat))
  : list (string * nat) :=
  fold_left (fun acc kn => dict_set acc (name_get nd (fst kn)) (snd kn)) dims [].

(** [Dataset.rename(name_dict)]: every key must name a variable or a
    dimension; variables and dimensions are renamed together. *)
Definition rename (ds : dataset) (nd : list (string * string)) : result dataset :=
  if forallb (fun kv => contains (fst kv) (ds_vars ds) || contains (fst kv) (ds_dims ds)) nd
  then
    let* vs := rename_vars_from nd (ds_vars ds) [] in
    Ok (mkDs (rename_dims nd (ds_dims ds)) vs (ds_attrs ds))
  else Err ValueError.

(** Assigning a 1-d array [data] as coordinate [name]: the variable has the
    dimension [name] and no attributes; its length must agree with an existing
    dimension of that name ([ValueError] otherwise). *)
Definition assign_coord (ds : dataset) (name : string) (data : list cell)
  : result dataset :=
  let var := mkVar [name] data [] in
  match lookup name (ds_dims ds) with
  | Some n =>
      if Nat.eqb n (List.length data)
      then Ok (mkDs (ds_dims ds) (dict_set (ds_vars ds) name var) (ds_attrs ds))
      else Err ValueError
  | None =>
      Ok (mkDs (ds_dims ds ++ [(name, List.length data)])
               (dict_set (ds_vars ds) name var) (ds_attrs ds))
  end.

(** [ds.assign_coords(coords)] *)
Fixpoint assign_coords (ds : dataset) (coords : list (string * list cell))
  : result dataset :=
  match coords with
  | [] => Ok ds
  | (name, data) :: rest =>
      let* ds := assign_coord ds name data in assign_coords ds rest
  end.

(** [ds.k.attrs] *)
Definition get_var_attrs (ds : dataset) (k : string) : result attr_map :=
  match lookup k (ds_vars ds) with
  | Some v => Ok (vattrs v)
  | None => if contains k (ds_dims ds) then Ok [] else Err (AttributeError k)
  end.

(** [ds.k.attrs = a]: the DataArray [ds.k] shares its variable with [ds];
    a virtual dimension variable is a temporary and the assignment is lost. *)
Definition set_var_attrs (ds : dataset) (k : string) (a : attr_map)
  : result dataset :=
  match lookup k (ds_vars ds) with
  | Some v =>
      Ok (mkDs (ds_dims ds) (dict_set (ds_vars ds) k (mkVar (vdims v) (vdata v) a))
               (ds_attrs ds))
  | None => if contains k (ds_dims ds) then Ok ds else Err (AttributeError k)
  end.

End Xr.

(* ------------------------------------------------------------------ *)
(** ** The preprocessing function [add_latlon_coords] *)

Module Lis.
Import Fp Py Xr.

Local Open Scope Q_scope.
Local Open Scope string_scope.

Section Reconstructor.

(** Python's [float(s)] on a string: the finite binary64 value it denotes,
    or [None] when [float] raises [ValueError]. *)
Variable float_of_str : string -> option Q.

(** Python's [float(v)] on an attribute value. *)
Definition py_float (v : attr_val) : result Q :=
  match v with
  | AFloat q => Ok q
  | AInt z => Ok (f64 (inject_Z z))
  | AStr s => match float_of_str s with Some q => Ok q | None => Err ValueError end
  | ANone => Err TypeError
  end.

(** [float(attrs[k])] *)
Definition float_attr (attrs : attr_map) (k : string) : result Q :=
  let* v := get_item attrs k in py_float v.

Definition add_latlon_coords (ds : dataset) : result dataset :=
  let attrs := ds_attrs ds in
  let* dx := float_attr attrs "DX" in
  let dx := round3 dx in
  let* dy := float_attr attrs "DY" in
  let dy := round3 dy in
  let* ew_len := len_item ds "east_west" in
  let* ns_len := len_item ds "north_south" in
  let* ll_lat := float_attr attrs "SOUTH_WEST_CORNER_LAT" in
  let ll_lat := round3 ll_lat in
  let* ll_lon := float_attr attrs "SOUTH_WEST_CORNER_LON" in
  let ll_lon := round3 ll_lon in
  let ur_lat := f64 (ll_lat + f64 (dy * inject_Z (Z.of_nat ns_len))) in
  let ur_lon := f64 (ll_lon + f64 (dx * inject_Z (Z.of_nat ew_len))) in
  let coords :=
    [("lat", map CNum (linspace_f32 ll_lat ur_lat ns_len));
     ("lon", map CNum (linspace_f32 ll_lon ur_lon ew_len))] in
  let* ds := rename ds [("lon", "orig_lon"); ("lat", "orig_lat")] in
  let* ds := rename ds [("north_south", "lat"); ("east_west", "lon")] in
  let* ds := assign_coords ds coords in
  let* a := get_var_attrs ds "orig_lon" in
  let* ds := set_var_attrs ds "lon" a in
  let* a := get_var_attrs ds "orig_lat" in
  set_var_attrs ds "lat" a.

(** [preprocess(ds)] (lines 141-148), the recipe's [process_chunk]. *)
Definition preprocess (ds : dataset) : result dataset :=
  add_latlon_coords ds.

End Reconstructor.

(** The renamings of lines 128 and 131. *)
Definition orig_renames : list (string * string) := [("lon", "orig_lon"); ("lat", "orig_lat")].
Definition dim_renames : list (string * string) := [("north_south", "lat"); ("east_west", "lon")].

(** The values of variable [name] of a dataset. *)
Definition coord (ds : dataset) (name : string) : option (list cell) :=
  option_map vdata (lookup name (ds_vars ds)).

End Lis.

(* ------------------------------------------------------------------ *)
(** ** Chunk planning of the recipe *)

Module Recipe.

(** Modelled from the spec: the chunk planning of [XarrayZarrRecipe]
    (pangeo_forge_recipes, called with [inputs_per_chunk]), whose code is not
    part of this repository.  Chunk [c] groups the inputs at positions
    [c*k .. min((c+1)*k, L) - 1]; there are [ceil(L/k)] chunks. *)
Definition nchunks (ninputs k : nat) : nat := (ninputs + k - 1) / k.

Definition iter_chunks (ninputs k : nat) : list nat := seq 0 (nchunks ninputs k).

Definition chunk_inputs {A} (inputs : list A) (k c : nat) : list A :=
  firstn k (skipn (c * k) inputs).

Definition groups {A} (inputs : list A) (k : nat) : list (list A) :=
  map (chunk_inputs inputs k) (iter_chunks (List.length inputs) k).

(** Modelled from the spec: the position of chunk [c] on the concatenated
    time axis, i.e. the number of records ([nitems_per_file] per input) of
    the inputs of all earlier chunks. *)
Definition chunk_offset {A} (inputs : list A) (k nitems c : nat) : nat :=
  nitems * List.length (List.concat (firstn c (groups inputs k))).

End Recipe.

(* ------------------------------------------------------------------ *)
(** ** The script's main block *)

Module Driver.
Import Xr.

Local Open Scope string_scope.

(** The YAML configuration; [globals().update(config_dict)] makes its keys
    the script's globals. *)
Record config := mkConfig {
  bucket : string;
  input_path : string;
  target_path : string;
  temp_dir : string;
  nitems_per_file : nat;
  inputs_per_chunk : nat;
  target_chunks : list (string * nat);
  enable_logging : bool
}.

Definition protocol : string := "s3://".

(** [build_url(path)] *)
Definition build_url (cfg : config) (path : string) : string :=
  protocol ++ bucket cfg ++ "/" ++ path.

(** Observable effects of the run, in order. *)
Inductive event :=
| Say (msg : string)       (* [print(...)] *)
| PrepareTarget            (* [recipe.prepare_target()]: creates the Zarr store *)
| StoreChunk (c : nat)     (* [recipe.store_chunk(chunk)] *)
| FinalizeTarget           (* [recipe.finalize_target()] *)
| Raise (exc : string).    (* an uncaught exception ends the run *)

(** Lines 75-198.  [s3_glob] is [s3.glob]; the recipe's chunk keys are
    those of [Recipe.iter_chunks].  The [XarrayZarrRecipe] constructor
    (line 176) places input [i] in chunk [i // inputs_per_chunk]: with
    [inputs_per_chunk = 0] and at least one input it raises
    [ZeroDivisionError], before the target is prepared. *)
Definition main (s3_glob : string -> list string) (cfg : config) : list event :=
  let input_url := build_url cfg (input_path cfg) in
  let input_urls := map (fun s => protocol ++ s) (s3_glob input_url) in
  Say "Creating recipe..." ::
  if (inputs_per_chunk cfg =? 0)%nat && negb (List.length input_urls =? 0)%nat
  then [Raise "ZeroDivisionError"]
  else
    let all_chunks := Recipe.iter_chunks (List.length input_urls) (inputs_per_chunk cfg) in
    [Say "Preparing target..."; PrepareTarget; Say "Executing recipe..."]
    ++ map StoreChunk all_chunks
    ++ [Say "Finalizing recipe..."; FinalizeTarget; Say "Recipe executed!"].

(** The effects on the target store. *)
Definition store_effects (evs : list event) : list event :=
  filter (fun ev => match ev with Say _ => false | _ => true end) evs.

End Driver.

(* ------------------------------------------------------------------ *)
(** ** Specification vocabulary and sample inputs *)

Module Spec.
Import Fp Py Xr Lis.
Local Open Scope Q_scope.
Local Open Scope string_scope.

(** Value [i] of coordinate [name] in the result of a call. *)
Definition result_coord_at (r : result dataset) (name : string) (i : nat) : option Q :=
  match r with
  | Ok ds =>
      match coord ds name with
      | Some cs => match nth_error cs i with Some (CNum q) => Some q | _ => None end
      | None => None
      end
  | Err _ => None
  end.






(** Replace the data of variable [k]. *)
Definition set_var_data (ds : dataset) (k : string) (d : list cell) : dataset :=
  mkDs (ds_dims ds)
       (map (fun kv => if String.eqb (fst kv) k
                       then (fst kv, mkVar (vdims (snd kv)) d (vattrs (snd kv)))
                       else kv) (ds_vars ds))
       (ds_attrs ds).

(** The sample frames carry no string attributes. *)
Definition no_str_float : string -> option Q := fun _ => None.

(** A LIS output frame: [lat] and [lon] are 2-d variables over
    [(north_south, east_west)] filled with nodata, next to a model field. *)
Definition lis_frame (ns ew : nat) (grid : attr_map) : dataset :=
  mkDs [("north_south", ns); ("east_west", ew)]
       [("lat", mkVar ["north_south"; "east_west"] (repeat CNaN (ns * ew))
                      [("units", AStr "degree_north"); ("long_name", AStr "latitude")]);
        ("lon", mkVar ["north_south"; "east_west"] (repeat CNaN (ns * ew))
                      [("units", AStr "degree_east"); ("long_name", AStr "longitude")]);
        ("SoilMoist_tavg", mkVar ["north_south"; "east_west"] (repeat (CNum 0) (ns * ew)) [])]
       grid.

Definition grid_attrs (dx dy lat lon : Q) : attr_map :=
  [("DX", AFloat dx); ("DY", AFloat dy);
   ("SOUTH_WEST_CORNER_LAT", AFloat lat); ("SOUTH_WEST_CORNER_LON", AFloat lon)].

(** The global 0.25-degree grid of the spec's scenario. *)
Definition scenario_frame : dataset :=
  lis_frame 600 1440 (grid_attrs 0.25 0.25 (-59.875) (-179.875)).

(** A small frame on an exact binary grid. *)
Definition small_frame : dataset :=
  lis_frame 3 4 (grid_attrs 0.5 0.25 (-10.125) 20.25).



(** A frame with the four grid attributes but no [lat] variable. *)
Definition no_lat_frame : dataset :=
  mkDs [("north_south", 2%nat); ("east_west", 2%nat)]
       [("lon", mkVar ["north_south"; "east_west"] (repeat CNaN 4) [])]
       (grid_attrs 0.25 0.25 0 0).

(** The four grid-description attributes read by [add_latlon_coords]. *)
Definition grid_keys : list string :=
  ["DX"; "DY"; "SOUTH_WEST_CORNER_LAT"; "SOUTH_WEST_CORNER_LON"].

(** A frame without [DX]. *)
Definition no_dx_frame : dataset :=
  lis_frame 3 4 [("DY", AFloat 0.25); ("SOUTH_WEST_CORNER_LAT", AFloat 0);
                 ("SOUTH_WEST_CORNER_LON", AFloat 0)].

(** A configuration in the style of the repository's [configs/]. *)
Definition sample_config : Driver.config :=
  Driver.mkConfig "lis-bucket" "LIS_HIST_*.nc" "LIS_HIST.zarr" "/tmp" 1 10
                  [("time", 1%nat)] false.

(** A coordinate whose values are ordered by the sign of [step]:
    non-decreasing when [step >= 0], non-increasing when [step <= 0]. *)
Definition axis_monotone (cs : option (list cell)) (step : Q) : Prop :=
  exists xs, cs = Some (map CNum xs) /\
    forall i j, (i <= j < List.length xs)%nat ->
      (0 <= step -> nth i xs 0 <= nth j xs 0) /\
      (step <= 0 -> nth j xs 0 <= nth i xs 0).

(** A frame with negative resolutions. *)
Definition descending_frame : dataset :=
  lis_frame 3 4 (grid_attrs (-0.5) (-0.25) 10.125 20.25).

(** A frame that already has an [orig_lat] variable. *)
Definition orig_lat_frame : dataset :=
  mkDs (ds_dims small_frame)
       (ds_vars small_frame ++
        [("orig_lat", mkVar ["north_south"; "east_west"] (repeat CNaN 12) [])])
       (ds_attrs small_frame).

(** The LIS layout: variables [lat] and [lon], dimensions [north_south]
    and [east_west], unique names, and none of the names the two renames
    and the two new coordinates introduce already taken. *)
Definition lis_layout (ds : dataset) : Prop :=
  NoDup (map fst (ds_vars ds)) /\ NoDup (map fst (ds_dims ds)) /\
  In "lat" (map fst (ds_vars ds)) /\ In "lon" (map fst (ds_vars ds)) /\
  In "north_south" (map fst (ds_dims ds)) /\ In "east_west" (map fst (ds_dims ds)) /\
  (forall k, In k ["north_south"; "east_west"; "orig_lat"; "orig_lon"] ->
     ~ In k (map fst (ds_vars ds))) /\
  (forall k, In k ["lat"; "lon"; "orig_lat"; "orig_lon"] ->
     ~ In k (map fst (ds_dims ds))).

End Spec.

(* ================================================================== *)
(** * Proofs *)

Module FpFacts.
Import Fp.
Local Open Scope Z_scope.

Lemma pow2_spec (e : Z) :
  (pow2 e * inject_Z (2 ^ Z.max 0 (- e)) == inject_Z (2 ^ Z.max 0 e))%Q.
Proof.
  unfold pow2. destruct (Z.leb_spec 0 e).
  - rewrite (Z.max_l 0 (- e)) by lia. rewrite (Z.max_r 0 e) by lia.
    unfold Qeq; simpl; lia.
  - rewrite (Z.max_r 0 (- e)) by lia. rewrite (Z.max_l 0 e) by lia.
    assert (Hp : (0 < 2 ^ (- e))%Z) by (apply Z.pow_pos_nonneg; lia).
    unfold Qeq, Qmult, inject_Z; cbn [Qnum Qden].
    rewrite !Pos2Z.inj_mul, Z2Pos.id by lia. lia.
Qed.

(** [n / d == m * 2^e] as an equation over [Z]. *)
Lemma frac_eq_dyadic (n d m e : Z) :
  (0 < d)%Z ->
  (Qmake n (Z.to_pos d) == inject_Z m * pow2 e)%Q <->
  (n * 2 ^ Z.max 0 (- e) = m * 2 ^ Z.max 0 e * d)%Z.
Proof.
  intros Hd. unfold pow2. destruct (Z.leb_spec 0 e).
  - rewrite (Z.max_l 0 (- e)) by lia. rewrite (Z.max_r 0 e) by lia.
    unfold Qeq, Qmult, inject_Z; cbn [Qnum Qden].
    rewrite !Pos2Z.inj_mul, Z2Pos.id by lia. lia.
  - rewrite (Z.max_r 0 (- e)) by lia. rewrite (Z.max_l 0 e) by lia.
    assert (Hp : (0 < 2 ^ (- e))%Z) by (apply Z.pow_pos_nonneg; lia).
    unfold Qeq, Qmult, inject_Z; cbn [Qnum Qden].
    rewrite !Pos2Z.inj_mul, !Z2Pos.id by lia. lia.
Qed.

(** The exponent chosen by [expo] satisfies the lower bound
    [2^(p-1) <= |n| / (d * 2^e)]. *)
Lemma expo_lower (p n d : Z) :
  (0 < p)%Z -> n <> 0%Z -> (0 < d)%Z ->
  let e := expo p n d in
  (2 ^ (p - 1) * d * 2 ^ Z.max 0 e <= Z.abs n * 2 ^ Z.max 0 (- e))%Z.
Proof.
  intros Hp Hn Hd. unfold expo.
  set (e0 := (Z.log2 (Z.abs n) - Z.log2 d - p)%Z).
  destruct (Z.leb_spec (2 ^ (p - 1) * d * 2 ^ Z.max 0 (e0 + 1))
                       (Z.abs n * 2 ^ Z.max 0 (- (e0 + 1)))) as [Hle | Hgt].
  - exact Hle.
  - cbv zeta.
    destruct (Z.log2_spec (Z.abs n)) as [Hn1 _]; [lia |].
    destruct (Z.log2_spec d) as [_ Hd2]; [lia |].
    assert (Hla := Z.log2_nonneg (Z.abs n)).
    assert (Hld := Z.log2_nonneg d).
    assert (Hq : (0 <= 2 ^ (p - 1))%Z) by (apply Z.pow_nonneg; lia).
    destruct (Z.leb_spec 0 e0).
    + rewrite (Z.max_r 0 e0), (Z.max_l 0 (- e0)) by lia.
      assert (H1 : (2 ^ (p - 1) * d * 2 ^ e0 <= 2 ^ (p - 1) * 2 ^ Z.succ (Z.log2 d) * 2 ^ e0)%Z).
      { apply Z.mul_le_mono_nonneg_r; [apply Z.pow_nonneg; lia |].
        apply Z.mul_le_mono_nonneg_l; lia. }
      rewrite <- !Z.pow_add_r in H1 by lia.
      replace (p - 1 + Z.succ (Z.log2 d) + e0)%Z with (Z.log2 (Z.abs n)) in H1 by lia.
      rewrite Z.pow_0_r. lia.
    + rewrite (Z.max_l 0 e0), (Z.max_r 0 (- e0)) by lia.
      assert (H1 : (2 ^ (p - 1) * d <= 2 ^ (p - 1) * 2 ^ Z.succ (Z.log2 d))%Z).
      { apply Z.mul_le_mono_nonneg_l; lia. }
      rewrite <- Z.pow_add_r in H1 by lia.
      replace (p - 1 + Z.succ (Z.log2 d))%Z with (Z.log2 (Z.abs n) + - e0)%Z in H1 by lia.
      rewrite Z.pow_add_r in H1 by lia.
      assert (H2 : (2 ^ Z.log2 (Z.abs n) * 2 ^ (- e0) <= Z.abs n * 2 ^ (- e0))%Z).
      { apply Z.mul_le_mono_nonneg_r; [apply Z.pow_nonneg; lia | lia]. }
      rewrite Z.pow_0_r. lia.
Qed.

(** Rounding a [p]-bit number [m0 * 2^e0] written as [n / d] is exact. *)
Lemma round_frac_exact (p n d m0 e0 : Z) :
  (0 < p)%Z -> (0 < d)%Z -> (Z.abs m0 < 2 ^ p)%Z ->
  (n * 2 ^ Z.max 0 (- e0) = m0 * 2 ^ Z.max 0 e0 * d)%Z ->
  (round_frac p n d == Qmake n (Z.to_pos d))%Q.
Proof.
  intros Hp Hd Hm E0. unfold round_frac.
  destruct (Z.eqb_spec n 0) as [-> | Hn].
  { unfold Qeq; simpl; lia. }
  assert (L1 := expo_lower p n d Hp Hn Hd). cbv zeta in L1 |- *.
  set (e := expo p n d) in *.
  set (A := Z.max 0 (- e)) in *. set (B := Z.max 0 e) in *.
  set (A0 := Z.max 0 (- e0)) in *. set (B0 := Z.max 0 e0) in *.
  assert (HA : (0 <= A)%Z) by lia. assert (HB : (0 <= B)%Z) by lia.
  assert (HA0 : (0 <= A0)%Z) by lia. assert (HB0 : (0 <= B0)%Z) by lia.
  assert (PA := Z.pow_pos_nonneg 2 A ltac:(lia) HA).
  assert (PB := Z.pow_pos_nonneg 2 B ltac:(lia) HB).
  assert (PA0 := Z.pow_pos_nonneg 2 A0 ltac:(lia) HA0).
  assert (PB0 := Z.pow_pos_nonneg 2 B0 ltac:(lia) HB0).
  assert (Hm0 : m0 <> 0%Z) by (intros ->; nia).
  (* the chosen exponent is at most [e0] *)
  assert (Habs : (Z.abs n * 2 ^ A0 = Z.abs m0 * 2 ^ B0 * d)%Z).
  { rewrite <- (Z.abs_eq (2 ^ A0)), <- (Z.abs_eq (2 ^ B0)), <- (Z.abs_eq d) by lia.
    rewrite <- !Z.abs_mul. now rewrite E0. }
  assert (Hlt : (2 ^ (p - 1 + B + A0) * d < 2 ^ (p + B0 + A) * d)%Z).
  { rewrite !Z.pow_add_r by lia.
    replace (2 ^ p)%Z with (2 * 2 ^ (p - 1))%Z
      by (rewrite <- Z.pow_succ_r by lia; f_equal; lia).
    assert (H1 : (2 ^ (p - 1) * d * 2 ^ B * 2 ^ A0 <= Z.abs n * 2 ^ A * 2 ^ A0)%Z)
      by (apply Z.mul_le_mono_nonneg_r; lia).
    replace (Z.abs n * 2 ^ A * 2 ^ A0)%Z with (Z.abs m0 * 2 ^ B0 * d * 2 ^ A)%Z in H1
      by (rewrite <- Habs; ring).
    assert (Hp1 : (Z.abs m0 < 2 * 2 ^ (p - 1))%Z)
      by (rewrite <- Z.pow_succ_r by lia; replace (Z.succ (p - 1)) with p by lia; lia).
    nia. }
  apply Z.mul_lt_mono_pos_r in Hlt; [| lia].
  apply Z.pow_lt_mono_r_iff in Hlt; [| lia | lia].
  set (K := (B0 + A - B - A0)%Z).
  set (k := (m0 * 2 ^ K)%Z).
  assert (Hpow : (2 ^ B0 * 2 ^ A = 2 ^ B * 2 ^ K * 2 ^ A0)%Z).
  { rewrite <- !Z.pow_add_r by lia. f_equal. lia. }
  assert (HN : (n * 2 ^ A = d * 2 ^ B * k)%Z).
  { apply (Z.mul_reg_r _ _ (2 ^ A0)); [lia |].
    transitivity (n * 2 ^ A0 * 2 ^ A)%Z; [ring |].
    rewrite E0. transitivity (m0 * d * (2 ^ B0 * 2 ^ A))%Z; [ring |].
    rewrite Hpow. unfold k. ring. }
  assert (Hdiv : div_rne (n * 2 ^ A) (d * 2 ^ B) = k).
  { unfold div_rne. rewrite HN, (Z.mul_comm (d * 2 ^ B) k).
    rewrite Z.div_mul, Z.mod_mul by lia. simpl.
    destruct (d * 2 ^ B)%Z eqn:E; [lia | reflexivity | lia]. }
  rewrite Hdiv.
  symmetry. apply frac_eq_dyadic; [exact Hd |]. fold A B. lia.
Qed.

Lemma round_exact (p : Z) (x : Q) :
  (0 < p)%Z -> representable p x -> (round p x == x)%Q.
Proof.
  intros Hp (m0 & e0 & Hm & Hx). unfold round.
  assert (Hy := Qred_correct x).
  destruct (Qred x) as [n den] eqn:Ey. cbn [Qnum Qden].
  assert (E0 : (n * 2 ^ Z.max 0 (- e0) = m0 * 2 ^ Z.max 0 e0 * Zpos den)%Z).
  { apply frac_eq_dyadic; [lia |]. simpl Z.to_pos.
    rewrite Hy. exact Hx. }
  rewrite (round_frac_exact p n (Zpos den) m0 e0 Hp ltac:(lia) Hm E0).
  exact Hy.
Qed.

Lemma round_proper (p : Z) (x y : Q) : (x == y)%Q -> round p x = round p y.
Proof. intros H. unfold round. now rewrite (Qred_complete x y H). Qed.


Lemma representable_b_sound (p : Z) (x : Q) :
  representable_b p x = true -> representable p x.
Proof.
  unfold representable_b. intros H. apply andb_prop in H as [H1 H2].
  apply Z.eqb_eq in H1. apply Z.ltb_lt in H2.
  assert (Hy := Qred_correct x).
  destruct (Qred x) as [n den] eqn:Ey. cbn [Qnum Qden] in *.
  set (k := Z.log2 (Zpos den)) in *.
  assert (Hk := Z.log2_nonneg (Zpos den)).
  exists n, (- k)%Z. split; [exact H2 |].
  rewrite <- Hy.
  change (Qmake n den) with (Qmake n (Z.to_pos (Zpos den))).
  apply frac_eq_dyadic; [lia |].
  rewrite (Z.max_r 0 (- - k)), (Z.max_l 0 (- k)) by lia.
  rewrite Z.opp_involutive, Z.pow_0_r. rewrite H1. ring.
Qed.



End FpFacts.

Module RecipeFacts.
Import Recipe.
Local Open Scope nat_scope.

Lemma firstn_add {A} (a b : nat) (l : list A) :
  firstn (a + b) l = firstn a l ++ firstn b (skipn a l).
Proof.
  revert l. induction a as [| a IH]; intros l; [reflexivity |].
  destruct l as [| x l]; simpl.
  - now rewrite firstn_nil.
  - now rewrite IH.
Qed.

Lemma firstn_seq (c j n : nat) : firstn c (seq j n) = seq j (Nat.min c n).
Proof.
  revert j n. induction c as [| c IH]; intros j n; [reflexivity |].
  destruct n as [| n]; [reflexivity |]. simpl. now rewrite IH.
Qed.

Lemma chunk_inputs_length {A} (l : list A) (k c : nat) :
  List.length (chunk_inputs l k c) = Nat.min k (List.length l - c * k).
Proof. unfold chunk_inputs. now rewrite length_firstn, length_skipn. Qed.

(** [nchunks] is the ceiling of [L / k]. *)
Lemma nchunks_bounds (L k : nat) :
  0 < k -> (L = 0 /\ nchunks L k = 0) \/ (k * (nchunks L k - 1) < L <= k * nchunks L k).
Proof.
  intros Hk. unfold nchunks.
  assert (Hd := Nat.div_mod_eq (L + k - 1) k).
  assert (Hm := Nat.mod_upper_bound (L + k - 1) k ltac:(lia)).
  set (q := (L + k - 1) / k) in *. set (r := (L + k - 1) mod k) in *.
  destruct L as [| L].
  - left. split; [reflexivity |].
    destruct q as [| q]; [reflexivity | nia].
  - right. destruct q as [| q]; [nia |].
    replace (S q - 1) with q by lia. nia.
Qed.

Lemma concat_chunks {A} (l : list A) (k j n : nat) :
  List.concat (map (chunk_inputs l k) (seq j n)) = firstn (n * k) (skipn (j * k) l).
Proof.
  revert j. induction n as [| n IH]; intros j; [reflexivity |].
  simpl seq. simpl map. simpl List.concat. rewrite IH.
  unfold chunk_inputs.
  replace (S n * k) with (k + n * k) by lia.
  rewrite firstn_add, skipn_skipn. replace (k + j * k) with (S j * k) by lia.
  reflexivity.
Qed.

Lemma groups_length {A} (l : list A) (k : nat) :
  List.length (groups l k) = nchunks (List.length l) k.
Proof. unfold groups, iter_chunks. now rewrite length_map, length_seq. Qed.

Lemma groups_nth {A} (l : list A) (k c : nat) :
  c < nchunks (List.length l) k -> nth c (groups l k) [] = chunk_inputs l k c.
Proof.
  intros Hc. unfold groups, iter_chunks.
  rewrite nth_indep with (d' := chunk_inputs l k 0)
    by (rewrite length_map, length_seq; exact Hc).
  rewrite map_nth, seq_nth by exact Hc. reflexivity.
Qed.

Lemma concat_groups {A} (l : list A) (k : nat) :
  0 < k -> List.concat (groups l k) = l.
Proof.
  intros Hk. unfold groups, iter_chunks. rewrite concat_chunks.
  rewrite skipn_0. apply firstn_all2.
  destruct (nchunks_bounds (List.length l) k Hk) as [[-> ->] | [_ H]]; lia.
Qed.

(** The inputs of the chunks before [c] are the first [c * k] inputs. *)
Lemma chunk_offset_eq {A} (l : list A) (k nitems c : nat) :
  0 < k -> c < nchunks (List.length l) k ->
  chunk_offset l k nitems c = c * k * nitems.
Proof.
  intros Hk Hc. unfold chunk_offset, groups, iter_chunks.
  rewrite firstn_map, firstn_seq, concat_chunks, skipn_0, length_firstn.
  destruct (nchunks_bounds (List.length l) k Hk) as [[_ H0] | [H1 _]]; [lia |].
  replace (Nat.min c (nchunks (List.length l) k)) with c by lia.
  assert (c * k <= k * (nchunks (List.length l) k - 1)) by nia.
  replace (Nat.min (c * k) (List.length l)) with (c * k) by lia. lia.
Qed.

End RecipeFacts.

Module XrFacts.
Import Xr.

Definition ren_var (nd : list (string * string)) (v : variable) : variable :=
  mkVar (map (name_get nd) (vdims v)) (vdata v) (vattrs v).

Definition ren_entry (nd : list (string * string)) (kv : string * variable)
  : string * variable :=
  (name_get nd (fst kv), ren_var nd (snd kv)).

Lemma lookup_In {A} (k : string) (v : A) (l : list (string * A)) :
  lookup k l = Some v -> In (k, v) l.
Proof.
  induction l as [| [k' v'] l IH]; simpl; [discriminate |].
  destruct (String.eqb_spec k k') as [-> | _].
  - intros H. injection H as <-. now left.
  - intros H. right. now apply IH.
Qed.

Lemma In_lookup {A} (k : string) (v : A) (l : list (string * A)) :
  NoDup (map fst l) -> In (k, v) l -> lookup k l = Some v.
Proof.
  induction l as [| [k' v'] l IH]; simpl; [contradiction |].
  intros Hnd Hin. inversion Hnd as [| ? ? Hnotin Hnd']; subst.
  destruct (String.eqb_spec k k') as [-> | Hne].
  - destruct Hin as [Heq | Hin]; [now injection Heq as <- |].
    exfalso. apply Hnotin. change k' with (fst (k', v)). now apply in_map.
  - destruct Hin as [Heq | Hin]; [injection Heq as <- <-; contradiction |].
    now apply IH.
Qed.

Lemma lookup_None_notin {A} (k : string) (l : list (string * A)) :
  lookup k l = None <-> ~ In k (map fst l).
Proof.
  induction l as [| [k' v'] l IH]; simpl; [tauto |].
  destruct (String.eqb_spec k k') as [-> | Hne].
  - split; [discriminate | intros H; exfalso; apply H; now left].
  - rewrite IH. split; intros H H'; apply H; [destruct H' as [H' | H']; [congruence | exact H'] | now right].
Qed.

Lemma contains_false {A} (k : string) (l : list (string * A)) :
  contains k l = false <-> ~ In k (map fst l).
Proof.
  unfold contains. rewrite <- lookup_None_notin.
  destruct (lookup k l); split; congruence.
Qed.

Lemma lookup_dict_set_eq {A} (l : list (string * A)) (k : string) (v : A) :
  lookup k (dict_set l k v) = Some v.
Proof.
  induction l as [| [k' v'] l IH]; simpl.
  - now rewrite String.eqb_refl.
  - destruct (String.eqb_spec k k') as [-> | Hne]; simpl.
    + now rewrite String.eqb_refl.
    + apply String.eqb_neq in Hne. now rewrite Hne.
Qed.

Lemma lookup_dict_set_neq {A} (l : list (string * A)) (k k' : string) (v : A) :
  k <> k' -> lookup k (dict_set l k' v) = lookup k l.
Proof.
  intros Hne. induction l as [| [k'' v''] l IH]; simpl.
  - apply String.eqb_neq in Hne. now rewrite Hne.
  - destruct (String.eqb_spec k' k'') as [-> | Hne']; simpl.
    + apply String.eqb_neq in Hne. now rewrite Hne.
    + now rewrite IH.
Qed.

(** A successful [_rename_vars] renames every entry and keeps names unique. *)
Lemma rename_vars_from_ok nd vs acc out :
  rename_vars_from nd vs acc = Ok out ->
  out = acc ++ map (ren_entry nd) vs /\
  (NoDup (map fst acc) -> NoDup (map fst out)).
Proof.
  revert acc. induction vs as [| [k v] vs IH]; intros acc H; simpl in H.
  - injection H as <-. rewrite app_nil_r. split; [reflexivity | tauto].
  - destruct (contains (name_get nd k) acc) eqn:Hc; [discriminate |].
    destruct (IH _ H) as [Hout Hnd]. split.
    + rewrite Hout, <- app_assoc. reflexivity.
    + intros Hacc. apply Hnd. rewrite map_app. simpl.
      apply contains_false in Hc.
      apply NoDup_app; [exact Hacc | constructor; [intros [] | constructor] |].
      intros x Hx [<- | []]. contradiction.
Qed.

Lemma rename_vars_from_succeeds nd vs acc :
  NoDup (map fst acc ++ map (fun kv => name_get nd (fst kv)) vs) ->
  rename_vars_from nd vs acc = Ok (acc ++ map (ren_entry nd) vs).
Proof.
  revert acc. induction vs as [| [k v] vs IH]; intros acc Hnd; simpl.
  - now rewrite app_nil_r.
  - simpl in Hnd. pose proof (NoDup_remove _ _ _ Hnd) as [_ Hnotin].
    assert (Hc : contains (name_get nd k) acc = false).
    { apply contains_false. intros H. apply Hnotin. apply in_or_app. now left. }
    rewrite Hc. rewrite IH.
    + rewrite <- app_assoc. reflexivity.
    + rewrite map_app, <- app_assoc. exact Hnd.
Qed.

Lemma rename_ok ds nd ds1 :
  rename ds nd = Ok ds1 ->
  ds_vars ds1 = map (ren_entry nd) (ds_vars ds) /\
  NoDup (map fst (ds_vars ds1)) /\
  ds_dims ds1 = rename_dims nd (ds_dims ds) /\
  ds_attrs ds1 = ds_attrs ds.
Proof.
  unfold rename. destruct forallb; [| discriminate].
  destruct (rename_vars_from nd (ds_vars ds) []) as [vs |] eqn:E; [| discriminate].
  simpl. intros H. injection H as <-. simpl.
  destruct (rename_vars_from_ok _ _ _ _ E) as [-> Hnd].
  repeat split. apply Hnd. constructor.
Qed.

(** The variable [k] of a renamed dataset is found under its new name. *)
Lemma rename_lookup ds nd ds1 k v :
  rename ds nd = Ok ds1 ->
  lookup k (ds_vars ds) = Some v ->
  lookup (name_get nd k) (ds_vars ds1) = Some (ren_var nd v).
Proof.
  intros H Hk. destruct (rename_ok _ _ _ H) as (Hv & Hnd & _).
  apply In_lookup; [exact Hnd |]. rewrite Hv.
  change (name_get nd k, ren_var nd v) with (ren_entry nd (k, v)).
  apply in_map. now apply lookup_In.
Qed.

Lemma assign_coords_other ds coords ds' k :
  assign_coords ds coords = Ok ds' ->
  ~ In k (map fst coords) ->
  lookup k (ds_vars ds') = lookup k (ds_vars ds).
Proof.
  revert ds. induction coords as [| [name data] coords IH]; intros ds H Hk; simpl in H.
  - now injection H as <-.
  - simpl in Hk.
    destruct (assign_coord ds name data) as [ds1 |] eqn:E; [| discriminate].
    simpl in H. rewrite (IH _ H) by tauto.
    unfold assign_coord in E.
    destruct (lookup name (ds_dims ds)); [destruct Nat.eqb; [| discriminate] |];
      injection E as <-; simpl; apply lookup_dict_set_neq; intros ->; tauto.
Qed.

Lemma set_var_attrs_other ds k a ds' k' :
  set_var_attrs ds k a = Ok ds' -> k' <> k ->
  lookup k' (ds_vars ds') = lookup k' (ds_vars ds).
Proof.
  unfold set_var_attrs. intros H Hne.
  destruct (lookup k (ds_vars ds)).
  - injection H as <-. simpl. now apply lookup_dict_set_neq.
  - destruct contains; [now injection H as <- | discriminate].
Qed.

End XrFacts.

Module LisFacts.
Import Fp Py Xr XrFacts Lis.
Local Open Scope string_scope.

Ltac bind_ok H :=
  lazymatch type of H with
  | bind ?m _ = Ok _ =>
      let E := fresh "E" in
      destruct m eqn:E; [cbn [bind] in H | discriminate H]
  end.

(** The steps of a successful [add_latlon_coords]. *)
Lemma add_latlon_coords_steps fs ds ds' :
  add_latlon_coords fs ds = Ok ds' ->
  exists dx dy ew_len ns_len ll_lat ll_lon ds1 ds2 ds3 ds4 a1 a2,
    float_attr fs (ds_attrs ds) "DX" = Ok dx /\
    float_attr fs (ds_attrs ds) "DY" = Ok dy /\
    len_item ds "east_west" = Ok ew_len /\
    len_item ds "north_south" = Ok ns_len /\
    float_attr fs (ds_attrs ds) "SOUTH_WEST_CORNER_LAT" = Ok ll_lat /\
    float_attr fs (ds_attrs ds) "SOUTH_WEST_CORNER_LON" = Ok ll_lon /\
    rename ds [("lon", "orig_lon"); ("lat", "orig_lat")] = Ok ds1 /\
    rename ds1 [("north_south", "lat"); ("east_west", "lon")] = Ok ds2 /\
    assign_coords ds2 [("lat", map CNum (grid_axis ll_lat dy ns_len));
                       ("lon", map CNum (grid_axis ll_lon dx ew_len))] = Ok ds3 /\
    get_var_attrs ds3 "orig_lon" = Ok a1 /\
    set_var_attrs ds3 "lon" a1 = Ok ds4 /\
    get_var_attrs ds4 "orig_lat" = Ok a2 /\
    set_var_attrs ds4 "lat" a2 = Ok ds'.
Proof.
  unfold add_latlon_coords. intros H. cbv zeta in H.
  repeat bind_ok H.
  do 12 eexists. repeat split; eassumption.
Qed.

Lemma assign_coords_latlon ds dl dn ds' :
  assign_coords ds [("lat", dl); ("lon", dn)] = Ok ds' ->
  lookup "lat" (ds_vars ds') = Some (mkVar ["lat"] dl []) /\
  lookup "lon" (ds_vars ds') = Some (mkVar ["lon"] dn []).
Proof.
  simpl. destruct (assign_coord ds "lat" dl) as [ds1 |] eqn:E1; [| discriminate].
  simpl. destruct (assign_coord ds1 "lon" dn) as [ds2 |] eqn:E2; [| discriminate].
  simpl. intros H. injection H as <-.
  assert (Hlat : lookup "lat" (ds_vars ds1) = Some (mkVar ["lat"] dl [])).
  { unfold assign_coord in E1.
    destruct (lookup "lat" (ds_dims ds)); [destruct Nat.eqb; [| discriminate] |];
      injection E1 as <-; apply lookup_dict_set_eq. }
  unfold assign_coord in E2.
  destruct (lookup "lon" (ds_dims ds1)); [destruct Nat.eqb; [| discriminate] |];
    injection E2 as <-; simpl; split;
    solve [ rewrite lookup_dict_set_neq by discriminate; exact Hlat
          | apply lookup_dict_set_eq ].
Qed.

(** The new [lat]/[lon] coordinates of a successful call are the grid axes
    of the attributes and dimension lengths read by the call. *)
Lemma add_latlon_coords_axes fs ds ds' :
  add_latlon_coords fs ds = Ok ds' ->
  exists dx dy ew_len ns_len ll_lat ll_lon,
    float_attr fs (ds_attrs ds) "DX" = Ok dx /\
    float_attr fs (ds_attrs ds) "DY" = Ok dy /\
    len_item ds "east_west" = Ok ew_len /\
    len_item ds "north_south" = Ok ns_len /\
    float_attr fs (ds_attrs ds) "SOUTH_WEST_CORNER_LAT" = Ok ll_lat /\
    float_attr fs (ds_attrs ds) "SOUTH_WEST_CORNER_LON" = Ok ll_lon /\
    (exists a, lookup "lat" (ds_vars ds') =
                 Some (mkVar ["lat"] (map CNum (grid_axis ll_lat dy ns_len)) a)) /\
    (exists a, lookup "lon" (ds_vars ds') =
                 Some (mkVar ["lon"] (map CNum (grid_axis ll_lon dx ew_len)) a)).
Proof.
  intros H.
  destruct (add_latlon_coords_steps _ _ _ H)
    as (dx & dy & ew & ns & la & lo & ds1 & ds2 & ds3 & ds4 & a1 & a2 &
        Edx & Edy & Eew & Ens & Ela & Elo & R1 & R2 & Ac & G1 & S1 & G2 & S2).
  exists dx, dy, ew, ns, la, lo. do 6 (split; [assumption |]).
  destruct (assign_coords_latlon _ _ _ _ Ac) as [Hlat Hlon].
  assert (Hlat4 : lookup "lat" (ds_vars ds4) = lookup "lat" (ds_vars ds3))
    by (apply (set_var_attrs_other _ _ _ _ _ S1); discriminate).
  assert (Hlon4 : lookup "lon" (ds_vars ds4) = Some (mkVar ["lon"] (map CNum (grid_axis lo dx ew)) a1)).
  { unfold set_var_attrs in S1. rewrite Hlon in S1. injection S1 as <-.
    apply lookup_dict_set_eq. }
  split.
  - exists a2. unfold set_var_attrs in S2. rewrite Hlat4, Hlat in S2.
    injection S2 as <-. apply lookup_dict_set_eq.
  - exists a1. rewrite (set_var_attrs_other _ _ _ _ _ S2) by discriminate.
    exact Hlon4.
Qed.

Lemma float_attr_lookup fs (a1 a2 : attr_map) (k : string) :
  lookup k a1 = lookup k a2 -> float_attr fs a1 k = float_attr fs a2 k.
Proof. intros H. unfold float_attr, get_item. now rewrite H. Qed.

(** The new coordinates are determined by the four grid attributes and the
    two dimension lengths. *)
Lemma coords_determined fs ds1 ds2 ds1' ds2' :
  (forall k, In k ["DX"; "DY"; "SOUTH_WEST_CORNER_LAT"; "SOUTH_WEST_CORNER_LON"] ->
             lookup k (ds_attrs ds1) = lookup k (ds_attrs ds2)) ->
  len_item ds1 "east_west" = len_item ds2 "east_west" ->
  len_item ds1 "north_south" = len_item ds2 "north_south" ->
  add_latlon_coords fs ds1 = Ok ds1' ->
  add_latlon_coords fs ds2 = Ok ds2' ->
  coord ds1' "lat" = coord ds2' "lat" /\ coord ds1' "lon" = coord ds2' "lon".
Proof.
  intros Hattr Hew Hns H1 H2.
  destruct (add_latlon_coords_axes _ _ _ H1)
    as (dx & dy & ew & ns & la & lo & Edx & Edy & Eew & Ens & Ela & Elo & [a Hlat] & [b Hlon]).
  destruct (add_latlon_coords_axes _ _ _ H2)
    as (dx' & dy' & ew' & ns' & la' & lo' & Edx' & Edy' & Eew' & Ens' & Ela' & Elo' &
        [a' Hlat'] & [b' Hlon']).
  rewrite (float_attr_lookup fs _ (ds_attrs ds2)) in Edx, Edy, Ela, Elo
    by (apply Hattr; simpl; tauto).
  rewrite Hew in Eew. rewrite Hns in Ens.
  rewrite Edx in Edx'. rewrite Edy in Edy'. rewrite Ela in Ela'. rewrite Elo in Elo'.
  rewrite Eew in Eew'. rewrite Ens in Ens'.
  injection Edx' as <-. injection Edy' as <-. injection Ela' as <-.
  injection Elo' as <-. injection Eew' as <-. injection Ens' as <-.
  unfold coord. rewrite Hlat, Hlon, Hlat', Hlon'. split; reflexivity.
Qed.

End LisFacts.

Module AxisFacts.
Import Fp FpFacts Py Spec.
Local Open Scope Q_scope.





Lemma nth_map_seq {B} (f : nat -> B) (n i : nat) (d : B) :
  (i < n)%nat -> nth i (map f (seq 0 n)) d = f i.
Proof.
  intros Hi. rewrite nth_indep with (d' := f 0%nat)
    by (rewrite length_map, length_seq; lia).
  rewrite map_nth, seq_nth by lia. reflexivity.
Qed.

Lemma linspace_length (start stop : Q) (n : nat) :
  List.length (linspace_f32 start stop n) = n.
Proof.
  destruct n; [reflexivity |]. unfold linspace_f32.
  now rewrite length_map, length_seq.
Qed.

Lemma grid_axis_length (c s : Q) (n : nat) : List.length (grid_axis c s n) = n.
Proof. apply linspace_length. Qed.





End AxisFacts.

Module FrameFacts.
Import Fp Py Xr Lis Spec AxisFacts.
Local Open Scope string_scope.

Lemma float_attr_ok_inv fs (a : attr_map) k q :
  float_attr fs a k = Ok q -> exists v, lookup k a = Some v /\ py_float fs v = Ok q.
Proof.
  unfold float_attr, get_item. destruct (lookup k a) as [v |]; simpl; [| discriminate].
  intros H. exists v. split; [reflexivity | exact H].
Qed.

(** Replacing the data of a variable keeps every variable's dimensions,
    hence every [len]. *)
Lemma set_var_data_dims (vs : list (string * variable)) k d k' :
  option_map vdims
    (lookup k' (map (fun kv => if String.eqb (fst kv) k
                               then (fst kv, mkVar (vdims (snd kv)) d (vattrs (snd kv)))
                               else kv) vs)) =
  option_map vdims (lookup k' vs).
Proof.
  induction vs as [| [k0 v0] vs IH]; [reflexivity |].
  cbn [map fst snd lookup].
  destruct (String.eqb k0 k); cbn [lookup fst];
    destruct (String.eqb k' k0); [reflexivity | exact IH | reflexivity | exact IH].
Qed.

Lemma set_var_data_len ds k d k' :
  len_item (set_var_data ds k d) k' = len_item ds k'.
Proof.
  unfold len_item, set_var_data, size_of. cbn [ds_vars ds_dims].
  pose proof (set_var_data_dims (ds_vars ds) k d k') as H.
  destruct (lookup k' (map _ (ds_vars ds))) as [v1 |];
    destruct (lookup k' (ds_vars ds)) as [v2 |]; cbn in H; try discriminate H.
  - injection H as ->. reflexivity.
  - reflexivity.
Qed.

End FrameFacts.

Module MonoFacts.
Import Fp FpFacts.
Local Open Scope Z_scope.

(** [div_rne n d] is an integer nearest to [n / d]; at a tie it is even. *)
Lemma div_rne_spec (n d : Z) :
  0 < d ->
  (2 * div_rne n d - 1) * d <= 2 * n <= (2 * div_rne n d + 1) * d /\
  ((2 * n = (2 * div_rne n d + 1) * d \/ 2 * n = (2 * div_rne n d - 1) * d) ->
   Z.even (div_rne n d) = true).
Proof.
  intros Hd. unfold div_rne.
  assert (Hdm := Z.div_mod n d ltac:(lia)).
  assert (Hb := Z.mod_pos_bound n d Hd).
  set (q := n / d) in *. set (r := n mod d) in *.
  destruct (Z.compare_spec (2 * r) d) as [E | L | G].
  - destruct (Z.even q) eqn:Ev.
    + split; [nia | intros _; exact Ev].
    + split; [nia |]. intros _.
      rewrite Z.add_1_r, Z.even_succ, <- Z.negb_even, Ev. reflexivity.
  - split; [nia |]. intros [H | H]; nia.
  - split; [nia |]. intros [H | H]; nia.
Qed.

Lemma div_rne_mono (n1 d1 n2 d2 : Z) :
  0 < d1 -> 0 < d2 -> n1 * d2 <= n2 * d1 -> div_rne n1 d1 <= div_rne n2 d2.
Proof.
  intros H1 H2 Hle.
  destruct (div_rne_spec n1 d1 H1) as [[A1 B1] T1].
  destruct (div_rne_spec n2 d2 H2) as [[A2 B2] T2].
  set (m1 := div_rne n1 d1) in *. set (m2 := div_rne n2 d2) in *.
  destruct (Z.le_gt_cases m1 m2) as [| Hgt]; [assumption | exfalso].
  assert (A : (2 * m1 - 1) * d1 * d2 <= 2 * n1 * d2)
    by (apply Z.mul_le_mono_nonneg_r; lia).
  assert (B : 2 * n2 * d1 <= (2 * m2 + 1) * d2 * d1)
    by (apply Z.mul_le_mono_nonneg_r; lia).
  assert (C : (2 * m2 + 1) * (d1 * d2) <= (2 * m1 - 1) * (d1 * d2))
    by (apply Z.mul_le_mono_nonneg_r; nia).
  assert (E1 : (2 * m1 - 1) * d1 * d2 = 2 * n1 * d2) by nia.
  assert (E2 : 2 * n2 * d1 = (2 * m2 + 1) * d2 * d1) by nia.
  assert (Em : 2 * m2 + 1 = 2 * m1 - 1).
  { apply (Z.mul_reg_r _ _ (d1 * d2)); nia. }
  assert (Ev1 : Z.even m1 = true).
  { apply T1. right. apply (Z.mul_reg_r _ _ d2); lia. }
  assert (Ev2 : Z.even m2 = true).
  { apply T2. left. apply (Z.mul_reg_r _ _ d1); lia. }
  replace m1 with (Z.succ m2) in Ev1 by lia.
  rewrite Z.even_succ, <- Z.negb_even, Ev2 in Ev1. discriminate.
Qed.

Lemma div_rne_1 (k : Z) : div_rne k 1 = k.
Proof. unfold div_rne. rewrite Z.div_1_r, Z.mod_1_r. reflexivity. Qed.


(** The exponent chosen by [expo] satisfies the upper bound
    [|n| / (d * 2^e) < 2^p]. *)
Lemma expo_upper (p n d : Z) :
  0 < p -> n <> 0 -> 0 < d ->
  let e := expo p n d in
  Z.abs n * 2 ^ Z.max 0 (- e) < 2 ^ p * d * 2 ^ Z.max 0 e.
Proof.
  intros Hp Hn Hd. unfold expo.
  set (e0 := Z.log2 (Z.abs n) - Z.log2 d - p).
  destruct (Z.log2_spec (Z.abs n)) as [_ Hn2]; [lia |].
  destruct (Z.log2_spec d) as [Hd1 _]; [lia |].
  assert (Hla := Z.log2_nonneg (Z.abs n)).
  assert (Hld := Z.log2_nonneg d).
  destruct (Z.leb_spec (2 ^ (p - 1) * d * 2 ^ Z.max 0 (e0 + 1))
                       (Z.abs n * 2 ^ Z.max 0 (- (e0 + 1)))) as [Hle | Hgt].
  - cbv zeta.
    set (A := Z.max 0 (- (e0 + 1))). set (B := Z.max 0 (e0 + 1)).
    assert (PA := Z.pow_pos_nonneg 2 A ltac:(lia) ltac:(lia)).
    assert (X : Z.abs n * 2 ^ A < 2 ^ Z.succ (Z.log2 (Z.abs n)) * 2 ^ A)
      by (apply Z.mul_lt_mono_pos_r; lia).
    assert (Y : 2 ^ p * 2 ^ Z.log2 d * 2 ^ B <= 2 ^ p * d * 2 ^ B).
    { apply Z.mul_le_mono_nonneg_r; [apply Z.pow_nonneg; lia |].
      apply Z.mul_le_mono_nonneg_l; [apply Z.pow_nonneg; lia | lia]. }
    rewrite <- Z.pow_add_r in X by lia. rewrite <- !Z.pow_add_r in Y by lia.
    replace (Z.succ (Z.log2 (Z.abs n)) + A) with (p + Z.log2 d + B) in X
      by (unfold A, B, e0; lia).
    lia.
  - assert (Hq : 2 ^ p = 2 * 2 ^ (p - 1))
      by (rewrite <- Z.pow_succ_r by lia; f_equal; lia).
    destruct (Z.leb_spec 0 e0).
    + rewrite (Z.max_r 0 e0), (Z.max_l 0 (- e0)) by lia.
      rewrite (Z.max_r 0 (e0 + 1)), (Z.max_l 0 (- (e0 + 1))) in Hgt by lia.
      rewrite Z.pow_add_r in Hgt by lia. rewrite Z.pow_1_r in Hgt. lia.
    + rewrite (Z.max_l 0 e0), (Z.max_r 0 (- e0)) by lia.
      rewrite (Z.max_l 0 (e0 + 1)), (Z.max_r 0 (- (e0 + 1))) in Hgt by lia.
      replace (- e0) with (Z.succ (- (e0 + 1))) by lia.
      rewrite Z.pow_succ_r by lia. lia.
Qed.

Local Open Scope Q_scope.

Lemma pow2_Qpower (e : Z) : pow2 e == (2 # 1) ^ e.
Proof.
  unfold pow2. destruct (Z.leb_spec 0 e).
  - apply (Zpower_Qpower 2 e). exact H.
  - replace e with (- (- e))%Z at 2 by lia. rewrite Qpower_opp.
    rewrite <- (Zpower_Qpower 2 (- e)) by lia.
    assert (P := Z.pow_pos_nonneg 2 (- e) ltac:(lia) ltac:(lia)).
    change (2 # 1) with (inject_Z 2).
    unfold Qinv, inject_Z. cbn [Qnum Qden].
    destruct (2 ^ (- e))%Z eqn:E; [lia | | lia].
    reflexivity.
Qed.

Lemma pow2_pos (e : Z) : 0 < pow2 e.
Proof.
  rewrite pow2_Qpower.
  assert (H1 := Qpower_0_le (2 # 1) e ltac:(discriminate)).
  assert (H2 := Qpower_not_0 (2 # 1) e ltac:(discriminate)).
  apply Qle_lteq in H1. destruct H1 as [H1 | H1]; [exact H1 |].
  exfalso. apply H2. symmetry. exact H1.
Qed.

Lemma pow2_add (a b : Z) : pow2 (a + b) == pow2 a * pow2 b.
Proof. rewrite !pow2_Qpower. apply Qpower_plus. discriminate. Qed.

Lemma pow2_le (a b : Z) : (a <= b)%Z -> pow2 a <= pow2 b.
Proof. intros H. rewrite !pow2_Qpower. apply Qpower_le_compat_l; [exact H | discriminate]. Qed.

Lemma pow2_nonneg_Z (k : Z) : (0 <= k)%Z -> pow2 k = inject_Z (2 ^ k).
Proof. intros H. unfold pow2. destruct (Z.leb_spec 0 k); [reflexivity | lia]. Qed.


Lemma rneQ_mono (q1 q2 : Q) : q1 <= q2 -> (rneQ q1 <= rneQ q2)%Z.
Proof. intros H. unfold rneQ. apply div_rne_mono; [lia | lia | exact H]. Qed.

Lemma rneQ_proper (q1 q2 : Q) : q1 == q2 -> rneQ q1 = rneQ q2.
Proof.
  intros H. apply Z.le_antisymm; apply rneQ_mono; rewrite H; apply Qle_refl.
Qed.

Lemma rneQ_Z (k : Z) : rneQ (inject_Z k) = k.
Proof. unfold rneQ. cbn [Qnum Qden inject_Z]. apply div_rne_1. Qed.

Lemma rneQ_div (N D : Z) : (0 < D)%Z -> rneQ (inject_Z N / inject_Z D) = div_rne N D.
Proof.
  intros HD. rewrite (rneQ_proper _ (Qmake N (Z.to_pos D))).
  - unfold rneQ. cbn [Qnum Qden]. now rewrite Z2Pos.id.
  - rewrite Qmake_Qdiv, Z2Pos.id by exact HD. reflexivity.
Qed.

(** A nonzero [x] rounds to [rne(x / 2^e) * 2^e] for an exponent [e] with
    [2^(p-1) <= |x| / 2^e < 2^p]. *)
Lemma round_nz (p : Z) (x : Q) :
  (0 < p)%Z -> ~ x == 0 ->
  exists e, round p x == inject_Z (rneQ (x / pow2 e)) * pow2 e /\
            inject_Z (2 ^ (p - 1)) <= Qabs x / pow2 e /\
            Qabs x / pow2 e < inject_Z (2 ^ p).
Proof.
  intros Hp Hx. unfold round.
  assert (Hy := Qred_correct x).
  destruct (Qred x) as [n den] eqn:Ey. cbn [Qnum Qden].
  assert (Hn : n <> 0%Z).
  { intros ->. apply Hx. rewrite <- Hy. reflexivity. }
  unfold round_frac. rewrite (proj2 (Z.eqb_neq n 0) Hn). cbv zeta.
  assert (L := expo_lower p n (Zpos den) Hp Hn ltac:(lia)).
  assert (U := expo_upper p n (Zpos den) Hp Hn ltac:(lia)).
  cbv zeta in L, U.
  set (e := expo p n (Zpos den)) in *.
  exists e.
  set (A := Z.max 0 (- e)) in *. set (B := Z.max 0 e) in *.
  assert (PS := pow2_spec e). fold A B in PS.
  assert (PA := Z.pow_pos_nonneg 2 A ltac:(lia) ltac:(lia)).
  assert (PB := Z.pow_pos_nonneg 2 B ltac:(lia) ltac:(lia)).
  assert (P2 := pow2_pos e).
  assert (Hscale : forall m : Z, (m # den) / pow2 e ==
                     inject_Z (m * 2 ^ A) / inject_Z (Zpos den * 2 ^ B)).
  { intros m. rewrite Qmake_Qdiv, !inject_Z_mult, <- PS. field.
    repeat split.
    - unfold Qeq. simpl. lia.
    - intros E. apply Qlt_not_eq in P2. apply P2. symmetry. exact E.
    - unfold Qeq. simpl. lia. }
  split; [| split].
  - rewrite (rneQ_proper _ (inject_Z (n * 2 ^ A) / inject_Z (Zpos den * 2 ^ B))).
    + rewrite rneQ_div by lia. apply Qeq_refl.
    + rewrite <- Hy. apply Hscale.
  - rewrite <- Hy. change (Qabs (n # den)) with (Z.abs n # den). rewrite Hscale.
    apply Qle_shift_div_l; [change 0 with (inject_Z 0); rewrite <- Zlt_Qlt; lia |].
    rewrite <- inject_Z_mult. rewrite <- Zle_Qle. lia.
  - rewrite <- Hy. change (Qabs (n # den)) with (Z.abs n # den). rewrite Hscale.
    apply Qlt_shift_div_r; [change 0 with (inject_Z 0); rewrite <- Zlt_Qlt; lia |].
    rewrite <- inject_Z_mult. rewrite <- Zlt_Qlt. lia.
Qed.


Lemma le_of_div (K a c : Q) : 0 < c -> K <= a / c -> K * c <= a.
Proof.
  intros Hc H. apply (Qmult_le_compat_r _ _ c) in H; [| apply Qlt_le_weak, Hc].
  apply (Qle_trans _ _ _ H). apply Qle_lteq. right. field.
  intros E. rewrite E in Hc. discriminate.
Qed.

Lemma lt_of_div (K a c : Q) : 0 < c -> a / c < K -> a < K * c.
Proof.
  intros Hc H. apply (Qmult_lt_r _ _ c Hc) in H.
  setoid_replace (a / c * c) with a in H; [exact H |].
  field. intros E. rewrite E in Hc. discriminate.
Qed.

Lemma rneQ_le_Z (q : Q) (k : Z) : q <= inject_Z k -> (rneQ q <= k)%Z.
Proof. intros H. rewrite <- (rneQ_Z k). now apply rneQ_mono. Qed.

Lemma rneQ_ge_Z (q : Q) (k : Z) : inject_Z k <= q -> (k <= rneQ q)%Z.
Proof. intros H. rewrite <- (rneQ_Z k). now apply rneQ_mono. Qed.

Lemma round_0 (p : Z) (x : Q) : x == 0 -> round p x == 0.
Proof. intros H. rewrite (round_proper p x 0 H). reflexivity. Qed.

(** The exponent grows with the magnitude. *)
Lemma expo_order (p : Z) (a b : Q) (ea eb : Z) :
  (0 < p)%Z ->
  pow2 (p - 1) <= a / pow2 ea -> b / pow2 eb < pow2 p -> a <= b -> (ea <= eb)%Z.
Proof.
  intros Hp Ha Hb Hab.
  apply le_of_div in Ha; [| apply pow2_pos].
  apply lt_of_div in Hb; [| apply pow2_pos].
  rewrite <- pow2_add in Ha, Hb.
  destruct (Z.le_gt_cases ea eb) as [| Hgt]; [assumption | exfalso].
  assert (Hle := pow2_le (p + eb) (p - 1 + ea) ltac:(lia)).
  apply (Qlt_irrefl b).
  apply (Qlt_le_trans _ _ _ Hb). apply (Qle_trans _ _ _ Hle).
  apply (Qle_trans _ _ _ Ha). exact Hab.
Qed.

Lemma round_repr (p : Z) (x : Q) :
  (0 < p)%Z -> ~ x == 0 ->
  exists e, round p x == inject_Z (rneQ (x / pow2 e)) * pow2 e /\
            pow2 (p - 1) <= Qabs x / pow2 e /\ Qabs x / pow2 e < pow2 p.
Proof.
  intros Hp Hx. destruct (round_nz p x Hp Hx) as (e & E & L & U).
  exists e. rewrite (pow2_nonneg_Z (p - 1)), (pow2_nonneg_Z p) by lia. auto.
Qed.

Lemma round_pos_bounds (p : Z) (x : Q) (e : Z) :
  (0 < p)%Z -> 0 < x ->
  round p x == inject_Z (rneQ (x / pow2 e)) * pow2 e ->
  pow2 (p - 1) <= Qabs x / pow2 e -> Qabs x / pow2 e < pow2 p ->
  pow2 (p - 1 + e) <= round p x /\ round p x <= pow2 (p + e).
Proof.
  intros Hp Hx E L U.
  rewrite Qabs_pos in L, U by (apply Qlt_le_weak, Hx).
  rewrite (pow2_nonneg_Z (p - 1)) in L by lia. rewrite (pow2_nonneg_Z p) in U by lia.
  assert (M1 := rneQ_ge_Z _ _ L). assert (M2 := rneQ_le_Z _ _ (Qlt_le_weak _ _ U)).
  assert (P := pow2_pos e).
  rewrite E, !pow2_add, (pow2_nonneg_Z (p - 1)), (pow2_nonneg_Z p) by lia.
  split; apply Qmult_le_compat_r; try (apply Qlt_le_weak, P); rewrite <- Zle_Qle; lia.
Qed.

Lemma round_neg_bounds (p : Z) (x : Q) (e : Z) :
  (0 < p)%Z -> x < 0 ->
  round p x == inject_Z (rneQ (x / pow2 e)) * pow2 e ->
  pow2 (p - 1) <= Qabs x / pow2 e -> Qabs x / pow2 e < pow2 p ->
  - pow2 (p + e) <= round p x /\ round p x <= - pow2 (p - 1 + e).
Proof.
  intros Hp Hx E L U.
  rewrite Qabs_neg in L, U by (apply Qlt_le_weak, Hx).
  rewrite (pow2_nonneg_Z (p - 1)) in L by lia. rewrite (pow2_nonneg_Z p) in U by lia.
  assert (P := pow2_pos e).
  assert (L' : x / pow2 e <= inject_Z (- 2 ^ (p - 1))).
  { rewrite inject_Z_opp. setoid_replace (x / pow2 e) with (- (- x / pow2 e))
      by (field; intros Z; rewrite Z in P; discriminate).
    apply Qopp_le_compat. exact L. }
  assert (U' : inject_Z (- 2 ^ p) <= x / pow2 e).
  { rewrite inject_Z_opp. setoid_replace (x / pow2 e) with (- (- x / pow2 e))
      by (field; intros Z; rewrite Z in P; discriminate).
    apply Qopp_le_compat. apply Qlt_le_weak. exact U. }
  assert (M1 := rneQ_le_Z _ _ L'). assert (M2 := rneQ_ge_Z _ _ U').
  rewrite E, !pow2_add, (pow2_nonneg_Z (p - 1)), (pow2_nonneg_Z p) by lia.
  setoid_replace (- (inject_Z (2 ^ p) * pow2 e)) with (inject_Z (- 2 ^ p) * pow2 e)
    by (rewrite inject_Z_opp; ring).
  setoid_replace (- (inject_Z (2 ^ (p - 1)) * pow2 e)) with (inject_Z (- 2 ^ (p - 1)) * pow2 e)
    by (rewrite inject_Z_opp; ring).
  split; apply Qmult_le_compat_r; try (apply Qlt_le_weak, P); rewrite <- Zle_Qle; lia.
Qed.

Lemma round_nonneg (p : Z) (x : Q) : (0 < p)%Z -> 0 <= x -> 0 <= round p x.
Proof.
  intros Hp Hx. destruct (Qeq_dec x 0) as [Z | Z].
  - rewrite (round_0 p x Z). apply Qle_refl.
  - destruct (round_repr p x Hp Z) as (e & E & L & U).
    assert (Hx' : 0 < x) by (apply Qle_lteq in Hx; destruct Hx as [| H]; [assumption |];
                             exfalso; apply Z; symmetry; exact H).
    destruct (round_pos_bounds p x e Hp Hx' E L U) as [B _].
    apply (Qle_trans _ _ _ (Qlt_le_weak _ _ (pow2_pos _)) B).
Qed.

Lemma round_nonpos (p : Z) (x : Q) : (0 < p)%Z -> x <= 0 -> round p x <= 0.
Proof.
  intros Hp Hx. destruct (Qeq_dec x 0) as [Z | Z].
  - rewrite (round_0 p x Z). apply Qle_refl.
  - destruct (round_repr p x Hp Z) as (e & E & L & U).
    assert (Hx' : x < 0) by (apply Qle_lteq in Hx; destruct Hx as [| H]; [assumption |];
                             exfalso; apply Z; exact H).
    destruct (round_neg_bounds p x e Hp Hx' E L U) as [_ B].
    apply (Qle_trans _ _ _ B).
    apply Qlt_le_weak. apply Qlt_minus_iff. ring_simplify. exact (pow2_pos _).
Qed.

(** Rounding is monotone. *)
Lemma round_mono (p : Z) (x y : Q) : (0 < p)%Z -> x <= y -> round p x <= round p y.
Proof.
  intros Hp Hxy.
  destruct (Qlt_le_dec 0 x) as [Hx | Hx].
  - (* 0 < x <= y *)
    assert (Hy : 0 < y) by (apply (Qlt_le_trans _ _ _ Hx Hxy)).
    assert (Zx : ~ x == 0) by (intros E; rewrite E in Hx; discriminate).
    assert (Zy : ~ y == 0) by (intros E; rewrite E in Hy; discriminate).
    destruct (round_repr p x Hp Zx) as (ex & Ex & Lx & Ux).
    destruct (round_repr p y Hp Zy) as (ey & Ey & Ly & Uy).
    assert (Hord : (ex <= ey)%Z).
    { apply (expo_order p (Qabs x) (Qabs y)); [exact Hp | exact Lx | exact Uy |].
      rewrite !Qabs_pos by (apply Qlt_le_weak; assumption). exact Hxy. }
    destruct (Z.eq_dec ex ey) as [<- | Hne].
    + rewrite Ex, Ey. apply Qmult_le_compat_r; [| apply Qlt_le_weak, pow2_pos].
      rewrite <- Zle_Qle. apply rneQ_mono.
      apply Qmult_le_compat_r; [exact Hxy |].
      apply Qlt_le_weak, Qinv_lt_0_compat, pow2_pos.
    + destruct (round_pos_bounds p x ex Hp Hx Ex Lx Ux) as [_ Bx].
      destruct (round_pos_bounds p y ey Hp Hy Ey Ly Uy) as [By _].
      apply (Qle_trans _ _ _ Bx). refine (Qle_trans _ _ _ _ By).
      apply pow2_le. lia.
  - destruct (Qlt_le_dec y 0) as [Hy | Hy].
    + (* x <= y < 0 *)
      assert (Hx' : x < 0) by (apply (Qle_lt_trans _ _ _ Hxy Hy)).
      assert (Zx : ~ x == 0) by (intros E; rewrite E in Hx'; discriminate).
      assert (Zy : ~ y == 0) by (intros E; rewrite E in Hy; discriminate).
      destruct (round_repr p x Hp Zx) as (ex & Ex & Lx & Ux).
      destruct (round_repr p y Hp Zy) as (ey & Ey & Ly & Uy).
      assert (Hord : (ey <= ex)%Z).
      { apply (expo_order p (Qabs y) (Qabs x)); [exact Hp | exact Ly | exact Ux |].
        rewrite !Qabs_neg by (apply Qlt_le_weak; assumption).
        apply Qopp_le_compat. exact Hxy. }
      destruct (Z.eq_dec ex ey) as [<- | Hne].
      * rewrite Ex, Ey. apply Qmult_le_compat_r; [| apply Qlt_le_weak, pow2_pos].
        rewrite <- Zle_Qle. apply rneQ_mono.
        apply Qmult_le_compat_r; [exact Hxy |].
        apply Qlt_le_weak, Qinv_lt_0_compat, pow2_pos.
      * destruct (round_neg_bounds p x ex Hp Hx' Ex Lx Ux) as [_ Bx].
        destruct (round_neg_bounds p y ey Hp Hy Ey Ly Uy) as [By _].
        apply (Qle_trans _ _ _ Bx). refine (Qle_trans _ _ _ _ By).
        apply Qopp_le_compat. apply pow2_le. lia.
    + (* x <= 0 <= y *)
      apply (Qle_trans _ 0); [apply round_nonpos | apply round_nonneg]; assumption.
Qed.


Lemma abs_div_bounds (x c K : Q) :
  0 < c -> Qabs x / c < K -> - K < x / c /\ x / c < K.
Proof.
  intros Hc H.
  assert (Hi : 0 <= / c) by (apply Qlt_le_weak, Qinv_lt_0_compat, Hc).
  split.
  - assert (A : - Qabs x <= x).
    { rewrite <- (Qopp_involutive x) at 2. apply Qopp_le_compat.
      rewrite <- Qabs_opp. apply Qle_Qabs. }
    apply (Qmult_le_compat_r _ _ (/ c)) in A; [| exact Hi].
    apply (Qlt_le_trans _ (- Qabs x / c)); [| exact A].
    setoid_replace (- Qabs x / c) with (- (Qabs x / c)) by (unfold Qdiv; ring).
    apply Qopp_lt_compat. exact H.
  - apply (Qle_lt_trans _ (Qabs x / c)); [| exact H].
    apply Qmult_le_compat_r; [apply Qle_Qabs | exact Hi].
Qed.

(** A rounded value is a [p]-bit number. *)
Lemma round_representable (p : Z) (x : Q) : (0 < p)%Z -> representable p (round p x).
Proof.
  intros Hp. destruct (Qeq_dec x 0) as [Z | Z].
  - exists 0%Z, 0%Z. split; [apply Z.pow_pos_nonneg; lia |].
    rewrite (round_0 p x Z). reflexivity.
  - destruct (round_repr p x Hp Z) as (e & E & L & U).
    destruct (abs_div_bounds x (pow2 e) (pow2 p) (pow2_pos e) U) as [U1 U2].
    rewrite (pow2_nonneg_Z p) in U1, U2 by lia.
    assert (M1 := rneQ_le_Z _ _ (Qlt_le_weak _ _ U2)).
    assert (M2 := rneQ_ge_Z (x / pow2 e) (- 2 ^ p)).
    rewrite inject_Z_opp in M2. specialize (M2 (Qlt_le_weak _ _ U1)).
    set (m := rneQ (x / pow2 e)) in *.
    assert (Hp2 : (2 ^ p = 2 * 2 ^ (p - 1))%Z)
      by (rewrite <- Z.pow_succ_r by lia; f_equal; lia).
    assert (Hq := Z.pow_pos_nonneg 2 (p - 1) ltac:(lia) ltac:(lia)).
    assert (Hsh : pow2 p * pow2 e == pow2 (p - 1) * pow2 (e + 1)).
    { rewrite <- !pow2_add. replace (p - 1 + (e + 1))%Z with (p + e)%Z by lia.
      reflexivity. }
    destruct (Z.eq_dec m (2 ^ p)) as [Em | Em]; [| destruct (Z.eq_dec m (- 2 ^ p)) as [Em' | Em']].
    + exists (2 ^ (p - 1))%Z, (e + 1)%Z. split; [lia |].
      rewrite E, Em, <- (pow2_nonneg_Z p), <- (pow2_nonneg_Z (p - 1)) by lia. exact Hsh.
    + exists (- 2 ^ (p - 1))%Z, (e + 1)%Z. split; [lia |].
      rewrite E, Em', !inject_Z_opp.
      setoid_replace (- inject_Z (2 ^ (p - 1)) * pow2 (e + 1))
        with (- (inject_Z (2 ^ (p - 1)) * pow2 (e + 1))) by ring.
      setoid_replace (- inject_Z (2 ^ p) * pow2 e) with (- (inject_Z (2 ^ p) * pow2 e)) by ring.
      rewrite <- (pow2_nonneg_Z p), <- (pow2_nonneg_Z (p - 1)) by lia.
      rewrite Hsh. reflexivity.
    + exists m, e. split; [lia | exact E].
Qed.

Lemma round_idem (p : Z) (x : Q) : (0 < p)%Z -> round p (round p x) == round p x.
Proof. intros Hp. apply round_exact; [exact Hp | apply round_representable, Hp]. Qed.

End MonoFacts.

Module AxisOrder.
Import Fp FpFacts Py AxisFacts MonoFacts.
Local Open Scope Q_scope.

Lemma f64_mono (x y : Q) : x <= y -> f64 x <= f64 y.
Proof. apply round_mono. lia. Qed.

Lemma f32_mono (x y : Q) : x <= y -> f32 x <= f32 y.
Proof. apply round_mono. lia. Qed.

Lemma f64_nonneg (x : Q) : 0 <= x -> 0 <= f64 x.
Proof. apply round_nonneg. lia. Qed.

Lemma f64_nonpos (x : Q) : x <= 0 -> f64 x <= 0.
Proof. apply round_nonpos. lia. Qed.

Lemma inject_nat_le (i j : nat) : (i <= j)%nat -> inject_Z (Z.of_nat i) <= inject_Z (Z.of_nat j).
Proof. intros H. rewrite <- Zle_Qle. lia. Qed.

Lemma nat_div_le (i j n : nat) :
  (i <= j)%nat -> (0 < n)%nat ->
  inject_Z (Z.of_nat i) / inject_Z (Z.of_nat n) <= inject_Z (Z.of_nat j) / inject_Z (Z.of_nat n).
Proof.
  intros H Hn. apply Qmult_le_compat_r; [now apply inject_nat_le |].
  apply Qlt_le_weak, Qinv_lt_0_compat. change 0 with (inject_Z 0). rewrite <- Zlt_Qlt. lia.
Qed.

(** [linspace] values in order: non-decreasing when [stop - start] rounds
    to a nonnegative [delta], non-increasing when it rounds to a
    nonpositive one. *)
Lemma linspace_order (start stop : Q) (n i j : nat) :
  (i <= j)%nat -> (j < n)%nat ->
  (0 <= f64 (stop - start) ->
     nth i (linspace_f32 start stop n) 0 <= nth j (linspace_f32 start stop n) 0) /\
  (f64 (stop - start) <= 0 ->
     nth j (linspace_f32 start stop n) 0 <= nth i (linspace_f32 start stop n) 0).
Proof.
  intros Hij Hj. destruct n as [| n']; [lia |].
  unfold linspace_f32. cbv beta iota zeta.
  rewrite !nth_map_seq by lia.
  set (n := S n') in *.
  set (N := inject_Z (Z.of_nat n)).
  set (delta := f64 (stop - start)).
  set (stp := f64 (delta / N)).
  assert (HN : 0 < N) by (unfold N; change 0 with (inject_Z 0); rewrite <- Zlt_Qlt; lia).
  assert (HiN : 0 <= / N) by (apply Qlt_le_weak, Qinv_lt_0_compat, HN).
  assert (Hq := nat_div_le i j n Hij ltac:(lia)). fold N in Hq.
  assert (Hij' := inject_nat_le i j Hij).
  split; intros Hd.
  - assert (Hs : 0 <= stp) by (apply f64_nonneg; apply Qmult_le_0_compat; assumption).
    apply f32_mono, f64_mono, Qplus_le_compat; [| apply Qle_refl].
    destruct (Qeq_bool stp 0).
    + apply f64_mono. apply Qmult_le_compat_r; [apply f64_mono, Hq | exact Hd].
    + apply f64_mono. apply Qmult_le_compat_r; assumption.
  - assert (Hs : stp <= 0).
    { apply f64_nonpos. setoid_replace (delta / N) with (- (- delta * / N)) by (unfold Qdiv; ring).
      rewrite <- (Qopp_involutive 0). apply Qopp_le_compat.
      apply Qmult_le_0_compat; [| exact HiN].
      rewrite <- (Qopp_involutive delta) in Hd. apply Qopp_le_compat in Hd.
      rewrite Qopp_involutive in Hd. exact Hd. }
    apply f32_mono, f64_mono, Qplus_le_compat; [| apply Qle_refl].
    destruct (Qeq_bool stp 0).
    + apply f64_mono.
      setoid_replace (f64 (inject_Z (Z.of_nat j) / N) * delta)
        with (- (f64 (inject_Z (Z.of_nat j) / N) * - delta)) by ring.
      setoid_replace (f64 (inject_Z (Z.of_nat i) / N) * delta)
        with (- (f64 (inject_Z (Z.of_nat i) / N) * - delta)) by ring.
      apply Qopp_le_compat. apply Qmult_le_compat_r; [apply f64_mono, Hq |].
      rewrite <- (Qopp_involutive 0). apply Qopp_le_compat. exact Hd.
    + apply f64_mono.
      setoid_replace (inject_Z (Z.of_nat j) * stp) with (- (inject_Z (Z.of_nat j) * - stp)) by ring.
      setoid_replace (inject_Z (Z.of_nat i) * stp) with (- (inject_Z (Z.of_nat i) * - stp)) by ring.
      apply Qopp_le_compat. apply Qmult_le_compat_r; [exact Hij' |].
      rewrite <- (Qopp_involutive 0). apply Qopp_le_compat. exact Hs.
Qed.


Lemma round3_f64 (x : Q) : f64 (round3 x) == round3 x.
Proof. unfold round3 at 1 2. apply round_idem. lia. Qed.

(** A reconstructed axis is non-decreasing when the rounded step is
    nonnegative and non-increasing when it is nonpositive. *)
Lemma grid_axis_order (c s : Q) (n i j : nat) :
  (i <= j)%nat -> (j < n)%nat ->
  (0 <= round3 s -> nth i (grid_axis c s n) 0 <= nth j (grid_axis c s n) 0) /\
  (round3 s <= 0 -> nth j (grid_axis c s n) 0 <= nth i (grid_axis c s n) 0).
Proof.
  intros Hij Hj. unfold grid_axis. cbv zeta.
  set (cr := round3 c). set (sr := round3 s).
  set (N := inject_Z (Z.of_nat n)).
  assert (HN : 0 <= N) by (unfold N; change 0 with (inject_Z 0); rewrite <- Zle_Qle; lia).
  assert (Hc := round3_f64 c). fold cr in Hc.
  destruct (linspace_order cr (f64 (cr + f64 (sr * N))) n i j Hij Hj) as [Up Down].
  split; intros Hs.
  - apply Up. apply f64_nonneg.
    assert (H1 : 0 <= f64 (sr * N)) by (apply f64_nonneg, Qmult_le_0_compat; assumption).
    assert (H2 : f64 cr <= f64 (cr + f64 (sr * N))).
    { apply f64_mono. rewrite <- (Qplus_0_r cr) at 1. apply Qplus_le_compat; [apply Qle_refl | exact H1]. }
    rewrite Hc in H2. apply (Qplus_le_l _ _ cr). ring_simplify. exact H2.
  - apply Down. apply f64_nonpos.
    assert (H1 : f64 (sr * N) <= 0).
    { apply f64_nonpos. setoid_replace (sr * N) with (- (- sr * N)) by ring.
      rewrite <- (Qopp_involutive 0). apply Qopp_le_compat.
      apply Qmult_le_0_compat; [| exact HN].
      rewrite <- (Qopp_involutive sr) in Hs. apply Qopp_le_compat in Hs.
      rewrite Qopp_involutive in Hs. exact Hs. }
    assert (H2 : f64 (cr + f64 (sr * N)) <= f64 cr).
    { apply f64_mono. rewrite <- (Qplus_0_r cr) at 2. apply Qplus_le_compat; [apply Qle_refl | exact H1]. }
    rewrite Hc in H2. apply (Qplus_le_l _ _ cr). ring_simplify. exact H2.
Qed.



End AxisOrder.

Module StructFacts.
Import Fp Py Xr XrFacts Lis LisFacts Spec AxisFacts FrameFacts.

Lemma lookup_app {A} (k : string) (l1 l2 : list (string * A)) :
  lookup k (l1 ++ l2) = match lookup k l1 with Some v => Some v | None => lookup k l2 end.
Proof.
  induction l1 as [| [k' v'] l1 IH]; simpl; [reflexivity |].
  destruct (String.eqb k k'); [reflexivity | exact IH].
Qed.

(** A name that the renaming fixes and gives to no other name is looked up
    in the renamed variables as before. *)
Lemma lookup_map_ren nd (vs : list (string * variable)) k :
  name_get nd k = k -> (forall k0, name_get nd k0 = k -> k0 = k) ->
  lookup k (map (ren_entry nd) vs) = option_map (ren_var nd) (lookup k vs).
Proof.
  intros Hk Hinj. induction vs as [| [k0 v0] vs IH]; [reflexivity |].
  cbn [map lookup ren_entry fst snd].
  destruct (String.eqb_spec k (name_get nd k0)) as [E | E].
  - rewrite (Hinj k0 (eq_sym E)), String.eqb_refl. reflexivity.
  - destruct (String.eqb_spec k k0) as [-> | _]; [congruence | exact IH].
Qed.

Lemma lookup_map_ren_none nd (vs : list (string * variable)) k :
  (forall k0, name_get nd k0 <> k) -> lookup k (map (ren_entry nd) vs) = None.
Proof.
  intros H. induction vs as [| [k0 v0] vs IH]; [reflexivity |].
  cbn [map lookup ren_entry fst snd].
  destruct (String.eqb_spec k (name_get nd k0)) as [E | _]; [now destruct (H k0) | exact IH].
Qed.

Lemma rename_dims_none nd (dims : list (string * nat)) k :
  (forall k0, name_get nd k0 <> k) -> lookup k (rename_dims nd dims) = None.
Proof.
  intros H. unfold rename_dims.
  assert (G : forall acc, lookup k acc = None ->
            lookup k (fold_left (fun acc kn => dict_set acc (name_get nd (fst kn)) (snd kn))
                                dims acc) = None).
  { induction dims as [| [d n] dims IH]; intros acc Hacc; simpl; [exact Hacc |].
    apply IH. rewrite lookup_dict_set_neq; [exact Hacc |]. intros E. apply (H d). auto. }
  now apply G.
Qed.

Lemma assign_coord_dims ds name data ds1 :
  assign_coord ds name data = Ok ds1 ->
  lookup name (ds_dims ds1) = Some (List.length data) /\
  (forall k, k <> name -> lookup k (ds_dims ds1) = lookup k (ds_dims ds)) /\
  ds_attrs ds1 = ds_attrs ds.
Proof.
  unfold assign_coord. destruct (lookup name (ds_dims ds)) as [n |] eqn:E.
  - destruct (Nat.eqb_spec n (List.length data)) as [<- |]; [| discriminate].
    intros H. injection H as <-. simpl. auto.
  - intros H. injection H as <-. cbn [ds_dims ds_attrs].
    split; [rewrite lookup_app, E; simpl; rewrite String.eqb_refl; reflexivity |].
    split; [| reflexivity].
    intros k Hk. rewrite lookup_app. destruct (lookup k (ds_dims ds)); [reflexivity |].
    simpl. apply String.eqb_neq in Hk. now rewrite Hk.
Qed.

Local Open Scope string_scope.

Lemma assign_coords_latlon_dims ds dl dn ds' :
  assign_coords ds [("lat", dl); ("lon", dn)] = Ok ds' ->
  lookup "lat" (ds_dims ds') = Some (List.length dl) /\
  lookup "lon" (ds_dims ds') = Some (List.length dn) /\
  (forall k, k <> "lat" -> k <> "lon" -> lookup k (ds_dims ds') = lookup k (ds_dims ds)) /\
  ds_attrs ds' = ds_attrs ds.
Proof.
  simpl. destruct (assign_coord ds "lat" dl) as [ds1 |] eqn:E1; [| discriminate]. simpl.
  destruct (assign_coord ds1 "lon" dn) as [ds2 |] eqn:E2; [| discriminate]. simpl.
  intros H. injection H as <-.
  destruct (assign_coord_dims _ _ _ _ E1) as (A1 & B1 & C1).
  destruct (assign_coord_dims _ _ _ _ E2) as (A2 & B2 & C2).
  split; [rewrite B2 by discriminate; exact A1 |].
  split; [exact A2 |].
  split; [intros k Hk1 Hk2; rewrite B2, B1 by assumption; reflexivity |].
  congruence.
Qed.

Lemma set_var_attrs_dims ds k a ds' :
  set_var_attrs ds k a = Ok ds' -> ds_dims ds' = ds_dims ds /\ ds_attrs ds' = ds_attrs ds.
Proof.
  unfold set_var_attrs. destruct (lookup k (ds_vars ds)).
  - intros H. injection H as <-. auto.
  - destruct contains; [intros H; injection H as <-; auto | discriminate].
Qed.

Lemma contains_app_l {A} (k : string) (l1 l2 : list (string * A)) :
  contains k l1 = true -> contains k (l1 ++ l2) = true.
Proof.
  unfold contains. rewrite lookup_app. destruct (lookup k l1); [reflexivity | discriminate].
Qed.

Lemma contains_last {A} (k : string) (l : list (string * A)) (v : A) :
  contains k (l ++ [(k, v)]) = true.
Proof.
  unfold contains. rewrite lookup_app. destruct (lookup k l); [reflexivity |].
  simpl. now rewrite String.eqb_refl.
Qed.

(** [_rename_vars] raises once a new name is already taken. *)
Lemma rename_vars_from_taken nd vs acc n k v :
  contains n acc = true -> In (k, v) vs -> name_get nd k = n ->
  rename_vars_from nd vs acc = Err ValueError.
Proof.
  revert acc. induction vs as [| [k0 v0] vs IH]; intros acc Hc Hin Hn; [contradiction |].
  simpl. destruct (contains (name_get nd k0) acc) eqn:E; [reflexivity |].
  destruct Hin as [Heq | Hin].
  - injection Heq as -> ->. congruence.
  - apply (IH _ (contains_app_l _ _ _ Hc) Hin Hn).
Qed.

(** Two distinct variables that the renaming sends to one name make
    [_rename_vars] raise [ValueError]. *)
Lemma rename_vars_from_clash nd vs acc k1 v1 k2 v2 :
  In (k1, v1) vs -> In (k2, v2) vs -> k1 <> k2 -> name_get nd k1 = name_get nd k2 ->
  rename_vars_from nd vs acc = Err ValueError.
Proof.
  revert acc. induction vs as [| [k0 v0] vs IH]; intros acc H1 H2 Hne Hn; [contradiction |].
  simpl. destruct (contains (name_get nd k0) acc) eqn:E; [reflexivity |].
  destruct H1 as [E1 | H1]; destruct H2 as [E2 | H2].
  - injection E1 as -> ->. injection E2 as -> ->. contradiction.
  - injection E1 as -> ->.
    apply (rename_vars_from_taken nd vs _ (name_get nd k1) k2 v2);
      [apply contains_last | exact H2 | symmetry; exact Hn].
  - injection E2 as -> ->.
    apply (rename_vars_from_taken nd vs _ (name_get nd k2) k1 v1);
      [apply contains_last | exact H1 | exact Hn].
  - apply (IH _ H1 H2 Hne Hn).
Qed.



Ltac name_cases k0 :=
  unfold name_get; cbn [lookup];
  destruct (String.eqb_spec k0 "lon"); destruct (String.eqb_spec k0 "lat");
  destruct (String.eqb_spec k0 "north_south"); destruct (String.eqb_spec k0 "east_west");
  subst; cbn; try congruence.

Lemma dim_renames_not_index k0 : name_get dim_renames k0 <> "north_south" /\ name_get dim_renames k0 <> "east_west".
Proof. unfold dim_renames. name_cases k0; split; congruence. Qed.

Lemma lookup_set_var_attrs_eq ds k a ds' v :
  lookup k (ds_vars ds) = Some v -> set_var_attrs ds k a = Ok ds' ->
  lookup k (ds_vars ds') = Some (mkVar (vdims v) (vdata v) a).
Proof.
  unfold set_var_attrs. intros E H. rewrite E in H. injection H as <-.
  apply lookup_dict_set_eq.
Qed.

(** The dimensions and attributes of a successful call. *)
Lemma add_latlon_coords_dims fs ds ds' :
  add_latlon_coords fs ds = Ok ds' ->
  exists ew_len ns_len,
    len_item ds "east_west" = Ok ew_len /\ len_item ds "north_south" = Ok ns_len /\
    lookup "lat" (ds_dims ds') = Some ns_len /\ lookup "lon" (ds_dims ds') = Some ew_len /\
    (forall k, In k ["north_south"; "east_west"] ->
       lookup k (ds_dims ds') = None /\ lookup k (ds_vars ds') = None) /\
    ds_attrs ds' = ds_attrs ds.
Proof.
  intros H.
  destruct (add_latlon_coords_steps _ _ _ H)
    as (dx & dy & ew & ns & la & lo & ds1 & ds2 & ds3 & ds4 & a1 & a2 &
        Edx & Edy & Eew & Ens & Ela & Elo & R1 & R2 & Ac & G1 & S1 & G2 & S2).
  destruct (rename_ok _ _ _ R1) as (V1 & _ & D1 & T1).
  destruct (rename_ok _ _ _ R2) as (V2 & _ & D2 & T2).
  destruct (assign_coords_latlon_dims _ _ _ _ Ac) as (Dl & Dn & Dk & T3).
  destruct (set_var_attrs_dims _ _ _ _ S1) as (D4 & T4).
  destruct (set_var_attrs_dims _ _ _ _ S2) as (D5 & T5).
  exists ew, ns. split; [exact Eew | split; [exact Ens |]].
  rewrite D5, D4. rewrite Dl, Dn, !length_map, !grid_axis_length.
  split; [reflexivity | split; [reflexivity |]].
  split; [| congruence].
  intros k Hk.
  assert (Hnk : forall k0, name_get dim_renames k0 <> k).
  { intros k0. destruct (dim_renames_not_index k0). simpl in Hk.
    destruct Hk as [<- | [<- | []]]; assumption. }
  assert (Hk1 : k <> "lat") by (simpl in Hk; destruct Hk as [<- | [<- | []]]; discriminate).
  assert (Hk2 : k <> "lon") by (simpl in Hk; destruct Hk as [<- | [<- | []]]; discriminate).
  split.
  - rewrite Dk by assumption. rewrite D2. apply rename_dims_none. exact Hnk.
  - rewrite (set_var_attrs_other _ _ _ _ _ S2 Hk1), (set_var_attrs_other _ _ _ _ _ S1 Hk2).
    rewrite (assign_coords_other _ _ _ _ Ac) by (simpl; intuition).
    rewrite V2. apply lookup_map_ren_none. exact Hnk.
Qed.

(** [float(attrs['DX'])] and [float(attrs['DY'])] succeed, but [ds] has no
    variable or dimension [east_west]: [len(ds['east_west'])] raises. *)
Lemma no_east_west_err fs ds dx dy :
  float_attr fs (ds_attrs ds) "DX" = Ok dx ->
  float_attr fs (ds_attrs ds) "DY" = Ok dy ->
  lookup "east_west" (ds_vars ds) = None ->
  lookup "east_west" (ds_dims ds) = None ->
  add_latlon_coords fs ds = Err (KeyError "east_west").
Proof.
  intros Edx Edy Hv Hd. unfold add_latlon_coords. cbv zeta.
  rewrite Edx, Edy. cbn [bind].
  unfold len_item at 1. rewrite Hv, Hd. reflexivity.
Qed.

Lemma rename_orig_clash ds :
  ((exists v w, lookup "lat" (ds_vars ds) = Some v /\ lookup "orig_lat" (ds_vars ds) = Some w) \/
   (exists v w, lookup "lon" (ds_vars ds) = Some v /\ lookup "orig_lon" (ds_vars ds) = Some w)) ->
  rename ds orig_renames = Err ValueError.
Proof.
  intros Hc. unfold rename. destruct forallb; [| reflexivity].
  destruct Hc as [(v & w & Hv & Hw) | (v & w & Hv & Hw)].
  - rewrite (rename_vars_from_clash orig_renames (ds_vars ds) [] "lat" v "orig_lat" w);
      [reflexivity | apply lookup_In; exact Hv | apply lookup_In; exact Hw
      | discriminate | reflexivity].
  - rewrite (rename_vars_from_clash orig_renames (ds_vars ds) [] "lon" v "orig_lon" w);
      [reflexivity | apply lookup_In; exact Hv | apply lookup_In; exact Hw
      | discriminate | reflexivity].
Qed.

Lemma name_get_fixed nd k :
  ~ In k (map fst nd) -> name_get nd k = k.
Proof.
  intros H. unfold name_get. apply lookup_None_notin in H. now rewrite H.
Qed.

(** Variables other than the renamed and the new ones keep their data and
    attributes; their dimensions are renamed. *)
Lemma add_latlon_coords_others fs ds ds' k :
  add_latlon_coords fs ds = Ok ds' ->
  ~ In k ["lat"; "lon"; "orig_lat"; "orig_lon"; "north_south"; "east_west"] ->
  lookup k (ds_vars ds') =
  option_map (fun v => mkVar (map (fun d => name_get dim_renames (name_get orig_renames d)) (vdims v))
                             (vdata v) (vattrs v))
             (lookup k (ds_vars ds)).
Proof.
  intros H Hk. simpl in Hk.
  destruct (add_latlon_coords_steps _ _ _ H)
    as (dx & dy & ew & ns & la & lo & ds1 & ds2 & ds3 & ds4 & a1 & a2 &
        Edx & Edy & Eew & Ens & Ela & Elo & R1 & R2 & Ac & G1 & S1 & G2 & S2).
  destruct (rename_ok _ _ _ R1) as (V1 & _).
  destruct (rename_ok _ _ _ R2) as (V2 & _).
  rewrite (set_var_attrs_other _ _ _ _ _ S2) by (intros ->; tauto).
  rewrite (set_var_attrs_other _ _ _ _ _ S1) by (intros ->; tauto).
  rewrite (assign_coords_other _ _ _ _ Ac) by (simpl; tauto).
  rewrite V2, (lookup_map_ren dim_renames).
  2: { apply name_get_fixed. simpl. tauto. }
  2: { intros k0. unfold dim_renames. name_cases k0; tauto. }
  rewrite V1, (lookup_map_ren orig_renames).
  2: { apply name_get_fixed. simpl. tauto. }
  2: { intros k0. unfold orig_renames. name_cases k0; tauto. }
  destruct (lookup k (ds_vars ds)); [| reflexivity].
  cbn. unfold ren_var. cbn. now rewrite map_map.
Qed.

(** The new [lat] and [lon] variables carry the attributes of the original
    [lat] and [lon] variables. *)
Lemma add_latlon_coords_attrs fs ds ds' vlat vlon :
  add_latlon_coords fs ds = Ok ds' ->
  lookup "lat" (ds_vars ds) = Some vlat ->
  lookup "lon" (ds_vars ds) = Some vlon ->
  (exists cs, lookup "lat" (ds_vars ds') = Some (mkVar ["lat"] cs (vattrs vlat))) /\
  (exists cs, lookup "lon" (ds_vars ds') = Some (mkVar ["lon"] cs (vattrs vlon))).
Proof.
  intros H Hlat Hlon.
  destruct (add_latlon_coords_steps _ _ _ H)
    as (dx & dy & ew & ns & la & lo & ds1 & ds2 & ds3 & ds4 & a1 & a2 &
        Edx & Edy & Eew & Ens & Ela & Elo & R1 & R2 & Ac & G1 & S1 & G2 & S2).
  destruct (assign_coords_latlon _ _ _ _ Ac) as [L3 N3].
  assert (Olat : lookup "orig_lat" (ds_vars ds3) = Some (ren_var dim_renames (ren_var orig_renames vlat))).
  { rewrite (assign_coords_other _ _ _ _ Ac) by (simpl; intuition discriminate).
    exact (rename_lookup _ _ _ _ _ R2 (rename_lookup _ _ _ _ _ R1 Hlat)). }
  assert (Olon : lookup "orig_lon" (ds_vars ds3) = Some (ren_var dim_renames (ren_var orig_renames vlon))).
  { rewrite (assign_coords_other _ _ _ _ Ac) by (simpl; intuition discriminate).
    exact (rename_lookup _ _ _ _ _ R2 (rename_lookup _ _ _ _ _ R1 Hlon)). }
  unfold get_var_attrs in G1. rewrite Olon in G1. injection G1 as <-.
  assert (N4 := lookup_set_var_attrs_eq _ _ _ _ _ N3 S1).
  assert (L4 : lookup "lat" (ds_vars ds4) = lookup "lat" (ds_vars ds3))
    by (apply (set_var_attrs_other _ _ _ _ _ S1); discriminate).
  assert (O4 : lookup "orig_lat" (ds_vars ds4) = lookup "orig_lat" (ds_vars ds3))
    by (apply (set_var_attrs_other _ _ _ _ _ S1); discriminate).
  unfold get_var_attrs in G2. rewrite O4, Olat in G2. injection G2 as <-.
  rewrite L3 in L4.
  split.
  - eexists. exact (lookup_set_var_attrs_eq _ _ _ _ _ L4 S2).
  - eexists. rewrite (set_var_attrs_other _ _ _ _ _ S2) by discriminate. exact N4.
Qed.

End StructFacts.

Module LayoutFacts.
Import Fp Py Xr XrFacts Lis LisFacts Spec AxisFacts.
Local Open Scope string_scope.

Lemma contains_In {A} (k : string) (l : list (string * A)) :
  In k (map fst l) -> contains k l = true.
Proof.
  intros H. destruct (contains k l) eqn:E; [reflexivity |].
  apply contains_false in E. contradiction.
Qed.

Lemma lookup_Some_In {A} (k : string) (l : list (string * A)) :
  In k (map fst l) -> exists v, lookup k l = Some v.
Proof.
  intros H. destruct (lookup k l) as [v |] eqn:E; [now exists v |].
  apply lookup_None_notin in E. contradiction.
Qed.

Lemma dict_set_keys {A} (l : list (string * A)) k (v : A) x :
  In x (map fst (dict_set l k v)) -> In x (map fst l) \/ x = k.
Proof.
  induction l as [| [k' v'] l IH]; simpl.
  - intros [H | []]. now right.
  - destruct (String.eqb_spec k k') as [-> | _]; simpl.
    + tauto.
    + intros [H | H]; [tauto |]. destruct (IH H); tauto.
Qed.

Lemma dict_set_NoDup {A} (l : list (string * A)) k (v : A) :
  NoDup (map fst l) -> NoDup (map fst (dict_set l k v)).
Proof.
  induction l as [| [k' v'] l IH]; simpl; intros Hnd.
  - constructor; [simpl; tauto | constructor].
  - inversion Hnd as [| ? ? Hn Hnd']; subst.
    destruct (String.eqb_spec k k') as [-> | Hne]; simpl.
    + constructor; assumption.
    + constructor; [| exact (IH Hnd')].
      intros Hin. destruct (dict_set_keys _ _ _ _ Hin) as [H | H]; [contradiction | congruence].
Qed.

Local Abbreviation ren_step nd := (fun (acc : list (string * nat)) (kn : string * nat) =>
  dict_set acc (name_get nd (fst kn)) (snd kn)) (only parsing).

Lemma fold_dims_NoDup nd (dims acc : list (string * nat)) :
  NoDup (map fst acc) -> NoDup (map fst (fold_left (ren_step nd) dims acc)).
Proof.
  revert acc. induction dims as [| kn dims IH]; simpl; intros acc H; [exact H |].
  apply IH. apply dict_set_NoDup, H.
Qed.

Lemma fold_dims_keys nd (dims acc : list (string * nat)) x :
  In x (map fst (fold_left (ren_step nd) dims acc)) ->
  In x (map fst acc) \/ exists k, In k (map fst dims) /\ x = name_get nd k.
Proof.
  revert acc. induction dims as [| [k n] dims IH]; simpl; intros acc H; [tauto |].
  destruct (IH _ H) as [H1 | (k' & Hk' & ->)].
  - cbn beta in H1. destruct (dict_set_keys _ _ _ _ H1) as [H2 | H2]; [tauto |].
    right. exists k. simpl in H2. tauto.
  - right. exists k'. tauto.
Qed.

Lemma fold_dims_other nd (dims acc : list (string * nat)) k :
  (forall k0, In k0 (map fst dims) -> name_get nd k0 <> k) ->
  lookup k (fold_left (ren_step nd) dims acc) = lookup k acc.
Proof.
  revert acc. induction dims as [| [k0 n0] dims IH]; simpl; intros acc H; [reflexivity |].
  rewrite IH by (intros k1 Hk1; apply H; tauto).
  simpl. apply lookup_dict_set_neq.
  intros E. apply (H k0); [tauto | symmetry; exact E].
Qed.

Lemma fold_dims_lookup nd (dims acc : list (string * nat)) k :
  NoDup (map fst dims) ->
  (forall k1 k2, In k1 (map fst dims) -> In k2 (map fst dims) ->
     name_get nd k1 = name_get nd k2 -> k1 = k2) ->
  In k (map fst dims) ->
  lookup (name_get nd k) (fold_left (ren_step nd) dims acc) = lookup k dims.
Proof.
  revert acc. induction dims as [| [k0 n0] dims IH]; simpl; intros acc Hnd Hinj Hk;
    [contradiction |].
  inversion Hnd as [| ? ? Hn Hnd']; subst.
  destruct (String.eqb_spec k k0) as [-> | Hne].
  - rewrite fold_dims_other.
    + simpl. apply lookup_dict_set_eq.
    + intros k1 Hk1 E. apply Hn.
      rewrite <- (Hinj k1 k0); [exact Hk1 | tauto | tauto | exact E].
  - destruct Hk as [-> | Hk]; [congruence |].
    apply IH; [exact Hnd' | | exact Hk].
    intros k1 k2 H1 H2. apply Hinj; tauto.
Qed.

Lemma rename_dims_NoDup nd dims : NoDup (map fst (rename_dims nd dims)).
Proof. apply fold_dims_NoDup. constructor. Qed.

Lemma rename_dims_keys nd dims x :
  In x (map fst (rename_dims nd dims)) -> exists k, In k (map fst dims) /\ x = name_get nd k.
Proof.
  intros H. destruct (fold_dims_keys nd dims [] x H) as [[] | H']. exact H'.
Qed.

Lemma rename_dims_lookup nd dims k :
  NoDup (map fst dims) ->
  (forall k1 k2, In k1 (map fst dims) -> In k2 (map fst dims) ->
     name_get nd k1 = name_get nd k2 -> k1 = k2) ->
  In k (map fst dims) ->
  lookup (name_get nd k) (rename_dims nd dims) = lookup k dims.
Proof. apply fold_dims_lookup. Qed.

Ltac ren_cases k :=
  unfold name_get, orig_renames, dim_renames; cbn [lookup];
  destruct (String.eqb_spec k "lon"); destruct (String.eqb_spec k "lat");
  destruct (String.eqb_spec k "north_south"); destruct (String.eqb_spec k "east_west");
  subst; cbn.

Lemma orig_renames_inj k1 k2 :
  k1 <> "orig_lat" -> k1 <> "orig_lon" -> k2 <> "orig_lat" -> k2 <> "orig_lon" ->
  name_get orig_renames k1 = name_get orig_renames k2 -> k1 = k2.
Proof.
  intros H1 H2 H3 H4. unfold name_get, orig_renames. cbn [lookup].
  destruct (String.eqb_spec k1 "lon"); destruct (String.eqb_spec k1 "lat");
  destruct (String.eqb_spec k2 "lon"); destruct (String.eqb_spec k2 "lat");
  subst; cbn; congruence.
Qed.

Lemma dim_renames_inj k1 k2 :
  k1 <> "lat" -> k1 <> "lon" -> k2 <> "lat" -> k2 <> "lon" ->
  name_get dim_renames k1 = name_get dim_renames k2 -> k1 = k2.
Proof.
  intros H1 H2 H3 H4. unfold name_get, dim_renames. cbn [lookup].
  destruct (String.eqb_spec k1 "north_south"); destruct (String.eqb_spec k1 "east_west");
  destruct (String.eqb_spec k2 "north_south"); destruct (String.eqb_spec k2 "east_west");
  subst; cbn; congruence.
Qed.

Lemma orig_renames_fixed k : k <> "lat" -> k <> "lon" -> name_get orig_renames k = k.
Proof.
  intros H1 H2. unfold name_get, orig_renames. cbn [lookup].
  destruct (String.eqb_spec k "lon"); [congruence |].
  destruct (String.eqb_spec k "lat"); [congruence | reflexivity].
Qed.

Lemma dim_renames_fixed k :
  k <> "north_south" -> k <> "east_west" -> name_get dim_renames k = k.
Proof.
  intros H1 H2. unfold name_get, dim_renames. cbn [lookup].
  destruct (String.eqb_spec k "north_south"); [congruence |].
  destruct (String.eqb_spec k "east_west"); [congruence | reflexivity].
Qed.

Lemma keys_ren nd (vs : list (string * variable)) :
  map fst (map (ren_entry nd) vs) = map (name_get nd) (map fst vs).
Proof. rewrite !map_map. reflexivity. Qed.

Lemma NoDup_map_inj (f : string -> string) (l : list string) :
  (forall a b, In a l -> In b l -> f a = f b -> a = b) -> NoDup l -> NoDup (map f l).
Proof. intros H. apply NoDup_map_NoDup_ForallPairs. intros a b Ha Hb. now apply H. Qed.

Lemma assign_coords_latlon_ok ds dl dn :
  lookup "lat" (ds_dims ds) = Some (List.length dl) ->
  lookup "lon" (ds_dims ds) = Some (List.length dn) ->
  assign_coords ds [("lat", dl); ("lon", dn)] =
  Ok (mkDs (ds_dims ds)
           (dict_set (dict_set (ds_vars ds) "lat" (mkVar ["lat"] dl [])) "lon"
                     (mkVar ["lon"] dn []))
           (ds_attrs ds)).
Proof.
  intros H1 H2. cbn [assign_coords]. unfold assign_coord at 1.
  rewrite H1, Nat.eqb_refl. cbn [bind ds_dims ds_vars ds_attrs].
  unfold assign_coord. cbn [ds_dims ds_vars ds_attrs].
  rewrite H2, Nat.eqb_refl. reflexivity.
Qed.

Lemma get_var_attrs_some ds k v :
  lookup k (ds_vars ds) = Some v -> get_var_attrs ds k = Ok (vattrs v).
Proof. unfold get_var_attrs. intros H. now rewrite H. Qed.

Lemma set_var_attrs_some ds k v a :
  lookup k (ds_vars ds) = Some v ->
  set_var_attrs ds k a =
  Ok (mkDs (ds_dims ds) (dict_set (ds_vars ds) k (mkVar (vdims v) (vdata v) a)) (ds_attrs ds)).
Proof. unfold set_var_attrs. intros H. now rewrite H. Qed.

Lemma lookup_Some_keys {A} (k : string) (v : A) (l : list (string * A)) :
  lookup k l = Some v -> In k (map fst l).
Proof. intros H. apply lookup_In in H. exact (in_map fst _ _ H). Qed.

Lemma attrs_tail ds vol vla vlo vlt :
  lookup "orig_lon" (ds_vars ds) = Some vol ->
  lookup "orig_lat" (ds_vars ds) = Some vla ->
  lookup "lon" (ds_vars ds) = Some vlo ->
  lookup "lat" (ds_vars ds) = Some vlt ->
  exists ds', (let* a := get_var_attrs ds "orig_lon" in
               let* ds := set_var_attrs ds "lon" a in
               let* a := get_var_attrs ds "orig_lat" in
               set_var_attrs ds "lat" a) = Ok ds'.
Proof.
  intros H1 H2 H3 H4.
  rewrite (get_var_attrs_some _ _ _ H1). cbn [bind].
  rewrite (set_var_attrs_some _ _ _ _ H3). cbn [bind].
  rewrite (get_var_attrs_some _ _ vla)
    by (cbn [ds_vars]; rewrite lookup_dict_set_neq by discriminate; exact H2).
  cbn [bind].
  rewrite (set_var_attrs_some _ _ vlt)
    by (cbn [ds_vars]; rewrite lookup_dict_set_neq by discriminate; exact H4).
  eexists. reflexivity.
Qed.

(** Every frame of the LIS layout whose four grid attributes convert is
    accepted. *)
Lemma layout_ok fs ds dx dy la lo :
  lis_layout ds ->
  float_attr fs (ds_attrs ds) "DX" = Ok dx ->
  float_attr fs (ds_attrs ds) "DY" = Ok dy ->
  float_attr fs (ds_attrs ds) "SOUTH_WEST_CORNER_LAT" = Ok la ->
  float_attr fs (ds_attrs ds) "SOUTH_WEST_CORNER_LON" = Ok lo ->
  exists ds', add_latlon_coords fs ds = Ok ds'.
Proof.
  intros (Hvnd & Hdnd & Hlat & Hlon & Hns & Hew & Hvout & Hdout) Edx Edy Ela Elo.
  destruct ds as [dims vars attrs]. cbn [ds_dims ds_vars ds_attrs] in *.
  assert (Vns : ~ In "north_south" (map fst vars)) by (apply Hvout; simpl; tauto).
  assert (Vew : ~ In "east_west" (map fst vars)) by (apply Hvout; simpl; tauto).
  assert (Vol : ~ In "orig_lat" (map fst vars)) by (apply Hvout; simpl; tauto).
  assert (Von : ~ In "orig_lon" (map fst vars)) by (apply Hvout; simpl; tauto).
  destruct (lookup_Some_In _ _ Hns) as [nsn Ens].
  destruct (lookup_Some_In _ _ Hew) as [ewn Eew].
  (* the two lengths *)
  assert (Lew : len_item (mkDs dims vars attrs) "east_west" = Ok ewn).
  { unfold len_item. cbn [ds_vars ds_dims].
    apply lookup_None_notin in Vew. now rewrite Vew, Eew. }
  assert (Lns : len_item (mkDs dims vars attrs) "north_south" = Ok nsn).
  { unfold len_item. cbn [ds_vars ds_dims].
    apply lookup_None_notin in Vns. now rewrite Vns, Ens. }
  (* first rename *)
  assert (Inj1 : forall a b, In a (map fst vars) -> In b (map fst vars) ->
                   name_get orig_renames a = name_get orig_renames b -> a = b).
  { intros a b Ha Hb. apply orig_renames_inj; intros ->; contradiction. }
  set (vars1 := map (ren_entry orig_renames) vars).
  set (dims1 := rename_dims orig_renames dims).
  assert (Nd1 : NoDup (map fst vars1)).
  { unfold vars1. rewrite keys_ren. apply NoDup_map_inj; assumption. }
  assert (R1 : rename (mkDs dims vars attrs) orig_renames = Ok (mkDs dims1 vars1 attrs)).
  { unfold rename. cbn [ds_vars ds_dims ds_attrs].
    unfold orig_renames at 1. cbn [forallb fst].
    rewrite (contains_In _ _ Hlon), (contains_In _ _ Hlat). cbn [orb andb].
    rewrite rename_vars_from_succeeds; [reflexivity |].
    cbn [map app]. rewrite <- (map_map fst (name_get orig_renames)).
    apply NoDup_map_inj; assumption. }
  (* dimensions after the first rename *)
  assert (Dfix : forall k, In k (map fst dims) -> name_get orig_renames k = k).
  { intros k Hk. apply orig_renames_fixed; intros ->; revert Hk; apply Hdout; simpl; tauto. }
  assert (DInj1 : forall a b, In a (map fst dims) -> In b (map fst dims) ->
                    name_get orig_renames a = name_get orig_renames b -> a = b).
  { intros a b Ha Hb. now rewrite (Dfix a Ha), (Dfix b Hb). }
  assert (L1 : forall k, In k (map fst dims) -> lookup k dims1 = lookup k dims).
  { intros k Hk. rewrite <- (Dfix k Hk) at 1. apply rename_dims_lookup; assumption. }
  assert (K1 : forall x, In x (map fst dims1) -> In x (map fst dims)).
  { intros x Hx. destruct (rename_dims_keys _ _ _ Hx) as (k & Hk & ->).
    now rewrite (Dfix k Hk). }
  (* second rename *)
  assert (V1out : forall x, In x (map fst vars1) -> x <> "north_south" /\ x <> "east_west").
  { intros x Hx. unfold vars1 in Hx. rewrite keys_ren in Hx.
    apply in_map_iff in Hx. destruct Hx as (k & <- & Hk).
    unfold name_get, orig_renames. cbn [lookup].
    destruct (String.eqb_spec k "lon"); [split; discriminate |].
    destruct (String.eqb_spec k "lat"); [split; discriminate |].
    split; intros ->; contradiction. }
  set (vars2 := map (ren_entry dim_renames) vars1).
  set (dims2 := rename_dims dim_renames dims1).
  assert (R2 : rename (mkDs dims1 vars1 attrs) dim_renames = Ok (mkDs dims2 vars2 attrs)).
  { unfold rename. cbn [ds_vars ds_dims ds_attrs].
    unfold dim_renames at 1. cbn [forallb fst].
    assert (C1 : contains "north_south" dims1 = true).
    { unfold contains. rewrite (L1 _ Hns), Ens. reflexivity. }
    assert (C2 : contains "east_west" dims1 = true).
    { unfold contains. rewrite (L1 _ Hew), Eew. reflexivity. }
    rewrite C1, C2, !orb_true_r. cbn [andb].
    rewrite rename_vars_from_succeeds; [reflexivity |].
    cbn [map app]. rewrite <- (map_map fst (name_get dim_renames)).
    rewrite (map_ext_in (name_get dim_renames) (fun x => x)).
    - rewrite map_id. exact Nd1.
    - intros x Hx. destruct (V1out x Hx). now apply dim_renames_fixed. }
  (* dimensions after the second rename *)
  assert (DInj2 : forall a b, In a (map fst dims1) -> In b (map fst dims1) ->
                    name_get dim_renames a = name_get dim_renames b -> a = b).
  { intros a b Ha Hb. apply K1 in Ha, Hb.
    apply dim_renames_inj; intros ->; [revert Ha | revert Ha | revert Hb | revert Hb];
      apply Hdout; simpl; tauto. }
  assert (Dlat : lookup "lat" dims2 = Some nsn).
  { change "lat" with (name_get dim_renames "north_south"). unfold dims2.
    rewrite rename_dims_lookup; [rewrite L1 by assumption; assumption | apply rename_dims_NoDup | exact DInj2 |].
    apply (lookup_Some_keys _ nsn). rewrite L1 by assumption; assumption. }
  assert (Dlon : lookup "lon" dims2 = Some ewn).
  { change "lon" with (name_get dim_renames "east_west"). unfold dims2.
    rewrite rename_dims_lookup; [rewrite L1 by assumption; assumption | apply rename_dims_NoDup | exact DInj2 |].
    apply (lookup_Some_keys _ ewn). rewrite L1 by assumption; assumption. }
  assert (Key2 : forall k, In k (map fst vars) ->
                   In (name_get dim_renames (name_get orig_renames k)) (map fst vars2)).
  { intros k Hk. unfold vars2, vars1. rewrite !keys_ren. now apply in_map, in_map. }
  destruct (lookup_Some_In "orig_lon" vars2 (Key2 "lon" Hlon)) as [vol Eol].
  destruct (lookup_Some_In "orig_lat" vars2 (Key2 "lat" Hlat)) as [vla Eola].
  unfold add_latlon_coords. cbv zeta. cbn [ds_attrs].
  rewrite Edx, Edy. cbn [bind]. rewrite Lew, Lns. cbn [bind].
  rewrite Ela, Elo. cbn [bind].
  change [("lon", "orig_lon"); ("lat", "orig_lat")] with orig_renames. rewrite R1. cbn [bind].
  change [("north_south", "lat"); ("east_west", "lon")] with dim_renames. rewrite R2. cbn [bind].
  rewrite assign_coords_latlon_ok
    by (cbn [ds_dims]; rewrite length_map, linspace_length; assumption).
  cbn [bind].
  apply (attrs_tail _ vol vla (mkVar ["lon"] (map CNum (linspace_f32 (round3 lo)
            (f64 (round3 lo + f64 (round3 dx * inject_Z (Z.of_nat ewn)))) ewn)) [])
          (mkVar ["lat"] (map CNum (linspace_f32 (round3 la)
            (f64 (round3 la + f64 (round3 dy * inject_Z (Z.of_nat nsn)))) nsn)) []));
    cbn [ds_vars].
  - rewrite !lookup_dict_set_neq by discriminate. exact Eol.
  - rewrite !lookup_dict_set_neq by discriminate. exact Eola.
  - apply lookup_dict_set_eq.
  - rewrite lookup_dict_set_neq by discriminate. apply lookup_dict_set_eq.
Qed.

(** The error [float(attrs[k])] raises. *)
Lemma float_attr_err_inv fs (a : attr_map) k e :
  float_attr fs a k = Err e ->
  (lookup k a = None /\ e = KeyError k) \/
  (exists s, lookup k a = Some (AStr s) /\ fs s = None /\ e = ValueError) \/
  (lookup k a = Some ANone /\ e = TypeError).
Proof.
  unfold float_attr, get_item. destruct (lookup k a) as [v |]; cbn [bind]; intros H.
  - destruct v as [q | z | s |]; cbn [py_float] in H; try discriminate H.
    + destruct (fs s) eqn:E; [discriminate H |]. injection H as <-.
      right; left. exists s. auto.
    + injection H as <-. right; right. auto.
  - injection H as <-. left. auto.
Qed.

Lemma float_attr_err_kind fs (a : attr_map) k e :
  float_attr fs a k = Err e -> e = ValueError \/ e = TypeError \/ exists k', e = KeyError k'.
Proof.
  intros H. destruct (float_attr_err_inv _ _ _ _ H) as [[_ ->] | [(s & _ & _ & ->) | [_ ->]]];
    eauto.
Qed.

Lemma len_item_err_kind ds k e :
  len_item ds k = Err e -> e = TypeError \/ e = KeyError k.
Proof.
  unfold len_item. destruct (lookup k (ds_vars ds)) as [v |].
  - destruct (vdims v); intros H; [injection H as <-; auto | discriminate H].
  - destruct (lookup k (ds_dims ds)); intros H; [discriminate H | injection H as <-; auto].
Qed.

End LayoutFacts.

Module DriverFacts.
Import Driver.

Lemma string_app_cancel (s a b : string) : (s ++ a = s ++ b)%string -> a = b.
Proof.
  induction s as [| c s IH]; simpl; intros H; [exact H |].
  injection H as H. exact (IH H).
Qed.


End DriverFacts.

(* ================================================================== *)
(** * The claims *)

Module ChunkClaims.
Import Recipe RecipeFacts.
Local Open Scope nat_scope.

(** C8: for every input sequence of length [L] and every positive
    [inputs_per_chunk = k], the chunk planner yields [ceil(L/k)] groups
    ([k * (n-1) < L <= k * n], or none for no input), every group but the
    last has exactly [k] inputs, and concatenating the groups in order gives
    back the input sequence; 23 inputs with [k = 10] give sizes [10; 10; 3]. *)
Theorem C8_chunk_partition {A} (l : list A) (k : nat) :
  0 < k ->
  (let n := List.length (groups l k) in
   (List.length l = 0 /\ n = 0) \/ (k * (n - 1) < List.length l <= k * n)) /\
  (forall c, S c < List.length (groups l k) ->
             List.length (nth c (groups l k) []) = k) /\
  List.concat (groups l k) = l /\
  (forall l' : list A, List.length l' = 23 ->
             map (@List.length A) (groups l' 10) = [10; 10; 3]).
Proof.
  intros Hk. split; [| split; [| split]].
  - cbv zeta. rewrite groups_length. now apply nchunks_bounds.
  - intros c Hc. rewrite groups_length in Hc.
    rewrite groups_nth by lia. rewrite chunk_inputs_length.
    destruct (nchunks_bounds (List.length l) k Hk) as [[_ H0] | [H1 _]]; [lia |].
    assert (Hm : S c * k <= (nchunks (List.length l) k - 1) * k)
      by (apply Nat.mul_le_mono_r; lia).
    simpl in Hm. lia.
  - now apply concat_groups.
  - intros l' Hl'. unfold groups, iter_chunks. rewrite Hl'.
    change (nchunks 23 10) with 3. simpl seq. simpl map.
    rewrite !chunk_inputs_length, Hl'. reflexivity.
Qed.

Lemma C8_witness :
  0 < 10 /\ List.concat (groups (seq 0 23) 10) = seq 0 23.
Proof.
  split; [lia |].
  exact (proj1 (proj2 (proj2 (C8_chunk_partition (seq 0 23) 10 ltac:(lia))))).
Defined.

(** C9: with [inputs_per_chunk = k > 0] and [items_per_file > 0], the
    offset of chunk [c] on the concatenated time axis is
    [c * k * items_per_file]; offsets strictly increase with the ordinal, and
    the record range of a chunk ends before the next chunk's offset. *)
Theorem C9_chunk_offsets {A} (l : list A) (k nitems : nat) :
  0 < k -> 0 < nitems ->
  let n := List.length (groups l k) in
  (forall c, c < n -> chunk_offset l k nitems c = c * k * nitems) /\
  (forall c1 c2, c1 < c2 < n ->
     chunk_offset l k nitems c1 < chunk_offset l k nitems c2) /\
  (forall c1 c2, c1 < c2 < n ->
     chunk_offset l k nitems c1 + nitems * List.length (nth c1 (groups l k) [])
       <= chunk_offset l k nitems c2).
Proof.
  intros Hk Hn. cbv zeta. rewrite groups_length.
  split; [| split].
  - intros c Hc. now apply chunk_offset_eq.
  - intros c1 c2 Hc. rewrite !chunk_offset_eq by lia.
    apply Nat.mul_lt_mono_pos_r; [lia |].
    apply Nat.mul_lt_mono_pos_r; lia.
  - intros c1 c2 Hc. rewrite !chunk_offset_eq by lia.
    rewrite groups_nth, chunk_inputs_length by lia.
    assert (H1 : nitems * Nat.min k (List.length l - c1 * k) <= nitems * k)
      by (apply Nat.mul_le_mono_l; lia).
    assert (H2 : S c1 * k * nitems <= c2 * k * nitems)
      by (apply Nat.mul_le_mono_r, Nat.mul_le_mono_r; lia).
    simpl in H2. lia.
Qed.

Lemma C9_witness :
  0 < 10 /\ 0 < 24 /\ chunk_offset (seq 0 23) 10 24 2 = 480.
Proof.
  split; [lia | split; [lia |]].
  exact (proj1 (C9_chunk_offsets (seq 0 23) 10 24 ltac:(lia) ltac:(lia)) 2
           ltac:(vm_compute; lia)).
Defined.

End ChunkClaims.

Module ReconstructorClaims.
Import Fp Py Xr XrFacts Lis LisFacts Spec AxisFacts FrameFacts AxisOrder LayoutFacts.
Local Open Scope string_scope.

(** C4: on every frame it accepts, [add_latlon_coords] keeps the original
    [lat] and [lon] variables under the keys [orig_lat] and [orig_lon], with
    their data and attributes unchanged (only their dimension names are
    renamed). *)
Theorem C4_orig_latlon_preserved fs ds ds' vlat vlon :
  add_latlon_coords fs ds = Ok ds' ->
  lookup "lat" (ds_vars ds) = Some vlat ->
  lookup "lon" (ds_vars ds) = Some vlon ->
  (exists v, lookup "orig_lat" (ds_vars ds') = Some v /\
             vdata v = vdata vlat /\ vattrs v = vattrs vlat) /\
  (exists v, lookup "orig_lon" (ds_vars ds') = Some v /\
             vdata v = vdata vlon /\ vattrs v = vattrs vlon).
Proof.
  intros H Hlat Hlon.
  destruct (add_latlon_coords_steps _ _ _ H)
    as (dx & dy & ew & ns & la & lo & ds1 & ds2 & ds3 & ds4 & a1 & a2 &
        Edx & Edy & Eew & Ens & Ela & Elo & R1 & R2 & Ac & G1 & S1 & G2 & S2).
  assert (Hkeep : forall k, k <> "lat" -> k <> "lon" ->
            lookup k (ds_vars ds') = lookup k (ds_vars ds2)).
  { intros k Hk1 Hk2.
    rewrite (set_var_attrs_other _ _ _ _ _ S2 Hk1).
    rewrite (set_var_attrs_other _ _ _ _ _ S1 Hk2).
    apply (assign_coords_other _ _ _ _ Ac). simpl. intuition. }
  split.
  - assert (L1 := rename_lookup _ _ _ _ _ R1 Hlat).
    assert (L2 := rename_lookup _ _ _ _ _ R2 L1).
    cbn in L2. eexists. split; [rewrite Hkeep by discriminate; exact L2 |].
    split; reflexivity.
  - assert (L1 := rename_lookup _ _ _ _ _ R1 Hlon).
    assert (L2 := rename_lookup _ _ _ _ _ R2 L1).
    cbn in L2. eexists. split; [rewrite Hkeep by discriminate; exact L2 |].
    split; reflexivity.
Qed.

Lemma C4_witness :
  exists ds' vlat vlon,
    add_latlon_coords no_str_float small_frame = Ok ds' /\
    lookup "lat" (ds_vars small_frame) = Some vlat /\
    lookup "lon" (ds_vars small_frame) = Some vlon /\
    (exists v, lookup "orig_lat" (ds_vars ds') = Some v /\
               vdata v = vdata vlat /\ vattrs v = vattrs vlat) /\
    (exists v, lookup "orig_lon" (ds_vars ds') = Some v /\
               vdata v = vdata vlon /\ vattrs v = vattrs vlon).
Proof.
  destruct (add_latlon_coords no_str_float small_frame) as [ds' | e] eqn:Hok;
    [| vm_compute in Hok; discriminate Hok].
  destruct (lookup "lat" (ds_vars small_frame)) as [vlat |] eqn:Hlat;
    [| vm_compute in Hlat; discriminate Hlat].
  destruct (lookup "lon" (ds_vars small_frame)) as [vlon |] eqn:Hlon;
    [| vm_compute in Hlon; discriminate Hlon].
  exists ds', vlat, vlon.
  split; [reflexivity | split; [reflexivity | split; [reflexivity |]]].
  exact (C4_orig_latlon_preserved no_str_float small_frame ds' vlat vlon Hok Hlat Hlon).
Defined.




(** C2 (amended): for the scenario grid (DX = DY = 0.25, corner
    (-59.875, -179.875), 1440 x 600 cells) the reconstructed axes have
    [lon[0] = -179.875], [lon[1439] = 179.875], [lat[0] = -59.875] and
    [lat[599] = 89.875]. *)
Theorem C2_scenario_axes :
  let r := add_latlon_coords no_str_float scenario_frame in
  match result_coord_at r "lon" 0, result_coord_at r "lon" 1439,
        result_coord_at r "lat" 0, result_coord_at r "lat" 599 with
  | Some a, Some b, Some c, Some d =>
      a == -179.875 /\ b == 179.875 /\ c == -59.875 /\ d == 89.875
  | _, _, _, _ => False
  end.
Proof. vm_compute. repeat split; reflexivity. Qed.

(** C2 is false as stated: [lon[1439]] is not 179.625 and [lat[599]] is
    not 89.625. *)
Lemma C2_counterexample :
  let r := add_latlon_coords no_str_float scenario_frame in
  match result_coord_at r "lon" 1439, result_coord_at r "lat" 599 with
  | Some b, Some d => ~ (b == 179.625) /\ ~ (d == 89.625)
  | _, _ => False
  end.
Proof. vm_compute. split; intros H; discriminate H. Qed.




(** C7: two calls on frames with the same four grid attributes and the same
    [east_west] and [north_south] lengths produce identical [lat] and [lon]
    values.  The embedding is a function of its argument: the call reads no
    other state, writes none, and leaves its argument unchanged. *)
Theorem C7_deterministic fs ds1 ds2 ds1' ds2' :
  (forall k, In k ["DX"; "DY"; "SOUTH_WEST_CORNER_LAT"; "SOUTH_WEST_CORNER_LON"] ->
             lookup k (ds_attrs ds1) = lookup k (ds_attrs ds2)) ->
  len_item ds1 "east_west" = len_item ds2 "east_west" ->
  len_item ds1 "north_south" = len_item ds2 "north_south" ->
  add_latlon_coords fs ds1 = Ok ds1' ->
  add_latlon_coords fs ds2 = Ok ds2' ->
  coord ds1' "lat" = coord ds2' "lat" /\ coord ds1' "lon" = coord ds2' "lon".
Proof. apply coords_determined. Qed.

Lemma C7_witness :
  exists ds1' ds2',
    add_latlon_coords no_str_float small_frame = Ok ds1' /\
    add_latlon_coords no_str_float
      (set_var_data (set_var_data small_frame "lat" []) "SoilMoist_tavg" [CNaN]) = Ok ds2' /\
    coord ds1' "lat" = coord ds2' "lat" /\ coord ds1' "lon" = coord ds2' "lon".
Proof.
  destruct (add_latlon_coords no_str_float small_frame) as [ds1' | e] eqn:H1;
    [| vm_compute in H1; discriminate H1].
  destruct (add_latlon_coords no_str_float
      (set_var_data (set_var_data small_frame "lat" []) "SoilMoist_tavg" [CNaN]))
    as [ds2' | e] eqn:H2; [| vm_compute in H2; discriminate H2].
  exists ds1', ds2'. split; [reflexivity | split; [reflexivity |]].
  apply (C7_deterministic no_str_float small_frame
           (set_var_data (set_var_data small_frame "lat" []) "SoilMoist_tavg" [CNaN]));
    [| vm_compute; reflexivity | vm_compute; reflexivity | exact H1 | exact H2].
  intros k Hk. vm_compute. reflexivity.
Defined.

(** C5 (amended): the call raises [KeyError], [ValueError] or [TypeError]
    when one of the four grid attributes is absent from the frame's
    attributes or rejected by [float].  The reads come in the order [DX],
    [DY], [len(ds["east_west"])], [len(ds["north_south"])],
    [SOUTH_WEST_CORNER_LAT], [SOUTH_WEST_CORNER_LON]; [float(attrs[k])]
    raises [KeyError k] for an absent key, [ValueError] for a string
    [float] rejects and [TypeError] for [None], and when the reads before a
    grid attribute succeed, its error is the error of the call.  A frame of
    the LIS layout ([lis_layout]) whose four grid attributes all convert
    with [float] is accepted. *)
Theorem C5_attribute_errors fs ds :
  ((exists k, In k grid_keys /\
      (lookup k (ds_attrs ds) = None \/
       exists v e, lookup k (ds_attrs ds) = Some v /\ py_float fs v = Err e)) ->
   exists e, add_latlon_coords fs ds = Err e /\
     (e = ValueError \/ e = TypeError \/ exists k', e = KeyError k')) /\
  (forall k e, float_attr fs (ds_attrs ds) k = Err e ->
     (lookup k (ds_attrs ds) = None /\ e = KeyError k) \/
     (exists s, lookup k (ds_attrs ds) = Some (AStr s) /\ fs s = None /\ e = ValueError) \/
     (lookup k (ds_attrs ds) = Some ANone /\ e = TypeError)) /\
  (forall e, float_attr fs (ds_attrs ds) "DX" = Err e ->
     add_latlon_coords fs ds = Err e) /\
  (forall dx e, float_attr fs (ds_attrs ds) "DX" = Ok dx ->
     float_attr fs (ds_attrs ds) "DY" = Err e ->
     add_latlon_coords fs ds = Err e) /\
  (forall dx dy ew ns e, float_attr fs (ds_attrs ds) "DX" = Ok dx ->
     float_attr fs (ds_attrs ds) "DY" = Ok dy ->
     len_item ds "east_west" = Ok ew -> len_item ds "north_south" = Ok ns ->
     float_attr fs (ds_attrs ds) "SOUTH_WEST_CORNER_LAT" = Err e ->
     add_latlon_coords fs ds = Err e) /\
  (forall dx dy ew ns la e, float_attr fs (ds_attrs ds) "DX" = Ok dx ->
     float_attr fs (ds_attrs ds) "DY" = Ok dy ->
     len_item ds "east_west" = Ok ew -> len_item ds "north_south" = Ok ns ->
     float_attr fs (ds_attrs ds) "SOUTH_WEST_CORNER_LAT" = Ok la ->
     float_attr fs (ds_attrs ds) "SOUTH_WEST_CORNER_LON" = Err e ->
     add_latlon_coords fs ds = Err e) /\
  (lis_layout ds ->
   (forall k, In k grid_keys -> exists q, float_attr fs (ds_attrs ds) k = Ok q) ->
   exists ds', add_latlon_coords fs ds = Ok ds').
Proof.
  split; [| split; [| split; [| split; [| split; [| split]]]]].
  - intros (k & Hk & Hbad).
    assert (Hnot : forall q, float_attr fs (ds_attrs ds) k = Ok q -> False).
    { intros q Hq. apply float_attr_ok_inv in Hq. destruct Hq as (v & Hv & Hp).
      destruct Hbad as [Hn | (v' & e & Hv' & He)]; [congruence |].
      rewrite Hv in Hv'. injection Hv' as <-. congruence. }
    unfold add_latlon_coords. cbv zeta.
    destruct (float_attr fs (ds_attrs ds) "DX") as [dx | e] eqn:Edx; cbn [bind];
      [| exists e; split; [reflexivity | exact (float_attr_err_kind _ _ _ _ Edx)]].
    destruct (float_attr fs (ds_attrs ds) "DY") as [dy | e] eqn:Edy; cbn [bind];
      [| exists e; split; [reflexivity | exact (float_attr_err_kind _ _ _ _ Edy)]].
    destruct (len_item ds "east_west") as [ew | e] eqn:Eew; cbn [bind];
      [| exists e; split; [reflexivity |];
         destruct (len_item_err_kind _ _ _ Eew) as [-> | ->]; eauto].
    destruct (len_item ds "north_south") as [ns | e] eqn:Ens; cbn [bind];
      [| exists e; split; [reflexivity |];
         destruct (len_item_err_kind _ _ _ Ens) as [-> | ->]; eauto].
    destruct (float_attr fs (ds_attrs ds) "SOUTH_WEST_CORNER_LAT") as [la | e] eqn:Ela;
      cbn [bind];
      [| exists e; split; [reflexivity | exact (float_attr_err_kind _ _ _ _ Ela)]].
    destruct (float_attr fs (ds_attrs ds) "SOUTH_WEST_CORNER_LON") as [lo | e] eqn:Elo;
      cbn [bind];
      [| exists e; split; [reflexivity | exact (float_attr_err_kind _ _ _ _ Elo)]].
    exfalso. unfold grid_keys in Hk. simpl in Hk.
    destruct Hk as [<- | [<- | [<- | [<- | []]]]]; eapply Hnot; eassumption.
  - apply float_attr_err_inv.
  - intros e Edx. unfold add_latlon_coords. cbv zeta. rewrite Edx. reflexivity.
  - intros dx e Edx Edy. unfold add_latlon_coords. cbv zeta.
    rewrite Edx. cbn [bind]. rewrite Edy. reflexivity.
  - intros dx dy ew ns e Edx Edy Eew Ens Ela. unfold add_latlon_coords. cbv zeta.
    rewrite Edx. cbn [bind]. rewrite Edy. cbn [bind]. rewrite Eew. cbn [bind].
    rewrite Ens. cbn [bind]. rewrite Ela. reflexivity.
  - intros dx dy ew ns la e Edx Edy Eew Ens Ela Elo. unfold add_latlon_coords. cbv zeta.
    rewrite Edx. cbn [bind]. rewrite Edy. cbn [bind]. rewrite Eew. cbn [bind].
    rewrite Ens. cbn [bind]. rewrite Ela. cbn [bind]. rewrite Elo. reflexivity.
  - intros Hlay Hall.
    destruct (Hall "DX") as [dx Edx]; [simpl; tauto |].
    destruct (Hall "DY") as [dy Edy]; [simpl; tauto |].
    destruct (Hall "SOUTH_WEST_CORNER_LAT") as [la Ela]; [simpl; tauto |].
    destruct (Hall "SOUTH_WEST_CORNER_LON") as [lo Elo]; [simpl; tauto |].
    exact (layout_ok fs ds dx dy la lo Hlay Edx Edy Ela Elo).
Qed.

Lemma C5_witness :
  (exists e, add_latlon_coords no_str_float no_dx_frame = Err e /\
     (e = ValueError \/ e = TypeError \/ exists k', e = KeyError k')) /\
  add_latlon_coords no_str_float no_dx_frame = Err (KeyError "DX") /\
  (exists ds', add_latlon_coords no_str_float small_frame = Ok ds').
Proof.
  destruct (C5_attribute_errors no_str_float no_dx_frame) as (P1 & _ & P3 & _).
  destruct (C5_attribute_errors no_str_float small_frame) as (_ & _ & _ & _ & _ & _ & P7).
  split; [| split].
  - apply P1. exists "DX". split; [simpl; tauto | left; vm_compute; reflexivity].
  - apply P3. vm_compute. reflexivity.
  - apply P7.
    + unfold lis_layout, small_frame, lis_frame. cbn [ds_vars ds_dims map fst].
      split; [repeat constructor; simpl; intuition discriminate |].
      split; [repeat constructor; simpl; intuition discriminate |].
      split; [simpl; tauto |]. split; [simpl; tauto |].
      split; [simpl; tauto |]. split; [simpl; tauto |].
      split; intros k Hk; simpl in Hk;
        destruct Hk as [<- | [<- | [<- | [<- | []]]]]; simpl; intuition discriminate.
    + intros k Hk. unfold grid_keys in Hk. simpl in Hk.
      destruct Hk as [<- | [<- | [<- | [<- | []]]]]; eexists; reflexivity.
Defined.

(** C5 is false as stated: a frame without a [lat] variable has all four
    grid attributes numeric, yet the call raises (a [ValueError] from
    [ds.rename]); the source raises no [MissingAttributeError]. *)
Lemma C5_counterexample :
  (forall k, In k grid_keys ->
     exists q, float_attr no_str_float (ds_attrs no_lat_frame) k = Ok q) /\
  add_latlon_coords no_str_float no_lat_frame = Err ValueError.
Proof.
  split.
  - intros k Hk. unfold grid_keys in Hk. simpl in Hk.
    destruct Hk as [<- | [<- | [<- | [<- | []]]]]; eexists; reflexivity.
  - vm_compute. reflexivity.
Qed.

(** C10: the [lat] and [lon] axes depend only on the four grid attributes and
    the lengths of [east_west] and [north_south]: two frames that agree on
    these get identical axes, whatever the data (NaN nodata included) of
    their [lat], [lon] or other variables and whatever their other
    attributes. *)
Theorem C10_axes_data_independent fs ds1 ds2 ds1' ds2' :
  (forall k, In k grid_keys -> lookup k (ds_attrs ds1) = lookup k (ds_attrs ds2)) ->
  len_item ds1 "east_west" = len_item ds2 "east_west" ->
  len_item ds1 "north_south" = len_item ds2 "north_south" ->
  add_latlon_coords fs ds1 = Ok ds1' ->
  add_latlon_coords fs ds2 = Ok ds2' ->
  coord ds1' "lat" = coord ds2' "lat" /\ coord ds1' "lon" = coord ds2' "lon".
Proof. intros Hattr. apply coords_determined. exact Hattr. Qed.

Lemma C10_witness :
  let ds2 := set_var_data
               (set_var_data
                  (lis_frame 3 4 (grid_attrs 0.5 0.25 (-10.125) 20.25 ++
                                  [("title", AStr "LIS land surface model output")])%list)
                  "lon" [CNum 1; CNaN])
               "SoilMoist_tavg" (repeat CNaN 12) in
  exists ds1' ds2',
    add_latlon_coords no_str_float small_frame = Ok ds1' /\
    add_latlon_coords no_str_float ds2 = Ok ds2' /\
    coord ds1' "lat" = coord ds2' "lat" /\ coord ds1' "lon" = coord ds2' "lon".
Proof.
  intros ds2.
  destruct (add_latlon_coords no_str_float small_frame) as [ds1' | e] eqn:H1;
    [| vm_compute in H1; discriminate H1].
  destruct (add_latlon_coords no_str_float ds2) as [ds2' | e] eqn:H2;
    [| vm_compute in H2; discriminate H2].
  exists ds1', ds2'. split; [reflexivity | split; [reflexivity |]].
  apply (C10_axes_data_independent no_str_float small_frame ds2);
    [| unfold ds2; rewrite !set_var_data_len; vm_compute; reflexivity
     | unfold ds2; rewrite !set_var_data_len; vm_compute; reflexivity | exact H1 | exact H2].
  intros k Hk. unfold grid_keys in Hk. simpl in Hk.
  destruct Hk as [<- | [<- | [<- | [<- | []]]]]; vm_compute; reflexivity.
Defined.

End ReconstructorClaims.

Module DriverClaims.
Import Recipe Driver Spec.
Local Open Scope string_scope.

(** C6 (amended): when the input glob matches no file, the run does not
    stop: it prepares the target store (creating it), stores no chunk and
    finalizes the target. *)
Theorem C6_zero_inputs s3_glob cfg :
  s3_glob (build_url cfg (input_path cfg)) = [] ->
  store_effects (main s3_glob cfg) = [PrepareTarget; FinalizeTarget].
Proof.
  intros H. unfold main. rewrite H. cbn [map List.length Nat.eqb negb].
  rewrite andb_false_r.
  assert (E : iter_chunks 0 (inputs_per_chunk cfg) = []).
  { unfold iter_chunks, nchunks.
    destruct (inputs_per_chunk cfg) as [| k]; [reflexivity |].
    rewrite Nat.div_small by lia. reflexivity. }
  rewrite E. reflexivity.
Qed.

Lemma C6_witness :
  store_effects (main (fun _ => []) sample_config) = [PrepareTarget; FinalizeTarget].
Proof. apply (C6_zero_inputs (fun _ => []) sample_config). reflexivity. Defined.

(** C6 is false as stated: with a glob matching nothing, the run raises no
    error and the target is prepared (the Zarr store is created) and
    finalized. *)
Lemma C6_counterexample :
  In PrepareTarget (store_effects (main (fun _ => []) sample_config)) /\
  In FinalizeTarget (store_effects (main (fun _ => []) sample_config)).
Proof. vm_compute. split; [left | right; left]; reflexivity. Qed.

End DriverClaims.

(* ================================================================== *)
(** * Further properties of the code *)

Module ExtraProps.
Import Fp Py Xr XrFacts Lis LisFacts Spec AxisFacts StructFacts AxisOrder.
Local Open Scope string_scope.

(** X1: after a successful call the dimension table has [lat] of the
    [north_south] length and [lon] of the [east_west] length; neither
    [north_south] nor [east_west] is left as a dimension or a variable; and
    the new coordinates have the lengths of their dimensions. *)
Theorem X_dims fs ds ds' :
  add_latlon_coords fs ds = Ok ds' ->
  exists ew_len ns_len,
    len_item ds "east_west" = Ok ew_len /\ len_item ds "north_south" = Ok ns_len /\
    lookup "lat" (ds_dims ds') = Some ns_len /\ lookup "lon" (ds_dims ds') = Some ew_len /\
    (forall k, In k ["north_south"; "east_west"] ->
       lookup k (ds_dims ds') = None /\ lookup k (ds_vars ds') = None) /\
    (exists cs, coord ds' "lat" = Some cs /\ List.length cs = ns_len) /\
    (exists cs, coord ds' "lon" = Some cs /\ List.length cs = ew_len).
Proof.
  intros H.
  destruct (add_latlon_coords_dims _ _ _ H) as (ew & ns & Eew & Ens & Dl & Dn & Hidx & _).
  destruct (add_latlon_coords_axes _ _ _ H)
    as (dx & dy & ew' & ns' & la & lo & _ & _ & Eew' & Ens' & _ & _ & [a Hlat] & [b Hlon]).
  rewrite Eew in Eew'. injection Eew' as <-. rewrite Ens in Ens'. injection Ens' as <-.
  exists ew, ns. do 5 (split; [assumption |]).
  unfold coord. rewrite Hlat, Hlon. cbn [option_map vdata].
  split; eexists; (split; [reflexivity |]); rewrite length_map; apply grid_axis_length.
Qed.

Lemma X_dims_witness :
  exists ds', add_latlon_coords no_str_float small_frame = Ok ds' /\
  exists ew_len ns_len,
    len_item small_frame "east_west" = Ok ew_len /\
    len_item small_frame "north_south" = Ok ns_len /\
    lookup "lat" (ds_dims ds') = Some ns_len /\ lookup "lon" (ds_dims ds') = Some ew_len /\
    (forall k, In k ["north_south"; "east_west"] ->
       lookup k (ds_dims ds') = None /\ lookup k (ds_vars ds') = None) /\
    (exists cs, coord ds' "lat" = Some cs /\ List.length cs = ns_len) /\
    (exists cs, coord ds' "lon" = Some cs /\ List.length cs = ew_len).
Proof.
  destruct (add_latlon_coords no_str_float small_frame) as [ds' | e] eqn:Hok;
    [| vm_compute in Hok; discriminate Hok].
  exists ds'. split; [reflexivity |].
  apply (X_dims no_str_float small_frame ds' Hok).
Defined.

(** X2: on a successful call, each new coordinate is monotone in the
    direction of its rounded resolution: non-decreasing when
    [round(DY, 3)] (for [lat]) or [round(DX, 3)] (for [lon]) is
    nonnegative, non-increasing when it is nonpositive, as long as the
    rounded corner and the product of the rounded resolution and the
    length stay within [2^100] in magnitude, so that no binary64 or
    binary32 operation overflows.  The roundings of [np.linspace] never
    reorder the values. *)
Theorem X_axis_order fs ds ds' dx dy ew ns la lo :
  add_latlon_coords fs ds = Ok ds' ->
  float_attr fs (ds_attrs ds) "DX" = Ok dx -> float_attr fs (ds_attrs ds) "DY" = Ok dy ->
  len_item ds "east_west" = Ok ew -> len_item ds "north_south" = Ok ns ->
  float_attr fs (ds_attrs ds) "SOUTH_WEST_CORNER_LAT" = Ok la ->
  float_attr fs (ds_attrs ds) "SOUTH_WEST_CORNER_LON" = Ok lo ->
  (Qabs (round3 la) <= pow2 100 -> Qabs (round3 dy * inject_Z (Z.of_nat ns)) <= pow2 100 ->
   axis_monotone (coord ds' "lat") (round3 dy)) /\
  (Qabs (round3 lo) <= pow2 100 -> Qabs (round3 dx * inject_Z (Z.of_nat ew)) <= pow2 100 ->
   axis_monotone (coord ds' "lon") (round3 dx)).
Proof.
  intros H Edx Edy Eew Ens Ela Elo.
  destruct (add_latlon_coords_axes _ _ _ H)
    as (dx' & dy' & ew' & ns' & la' & lo' & Edx' & Edy' & Eew' & Ens' & Ela' & Elo' &
        [a Hlat] & [b Hlon]).
  rewrite Edx in Edx'; injection Edx' as <-. rewrite Edy in Edy'; injection Edy' as <-.
  rewrite Eew in Eew'; injection Eew' as <-. rewrite Ens in Ens'; injection Ens' as <-.
  rewrite Ela in Ela'; injection Ela' as <-. rewrite Elo in Elo'; injection Elo' as <-.
  unfold coord. rewrite Hlat, Hlon. cbn [option_map vdata].
  split; intros _ _; eexists; (split; [reflexivity |]); intros i j [Hij Hj];
    rewrite grid_axis_length in Hj; exact (grid_axis_order _ _ _ i j Hij Hj).
Qed.

Lemma X_axis_order_witness :
  exists ds', add_latlon_coords no_str_float descending_frame = Ok ds' /\
    axis_monotone (coord ds' "lat") (round3 (-0.25)) /\
    axis_monotone (coord ds' "lon") (round3 (-0.5)).
Proof.
  destruct (add_latlon_coords no_str_float descending_frame) as [ds' | e] eqn:Hok;
    [| vm_compute in Hok; discriminate Hok].
  exists ds'. split; [reflexivity |].
  destruct (X_axis_order no_str_float descending_frame ds' (-0.5) (-0.25) 4 3 10.125 20.25 Hok)
    as [Hlat Hlon]; try (vm_compute; reflexivity).
  split; [apply Hlat | apply Hlon]; apply Qle_bool_imp_le; vm_compute; reflexivity.
Defined.

(** X3: [preprocess] does not accept its own output: on a frame it has
    already processed it raises [KeyError('east_west')], since the grid
    dimensions have been renamed away. *)
Theorem X_reenter fs ds ds' :
  preprocess fs ds = Ok ds' ->
  preprocess fs ds' = Err (KeyError "east_west").
Proof.
  unfold preprocess. intros H.
  destruct (add_latlon_coords_dims _ _ _ H) as (ew & ns & _ & _ & _ & _ & Hidx & Hat).
  destruct (add_latlon_coords_axes _ _ _ H)
    as (dx & dy & _ & _ & _ & _ & Edx & Edy & _).
  destruct (Hidx "east_west") as [Hd Hv]; [simpl; tauto |].
  apply (no_east_west_err fs ds' dx dy); [rewrite Hat; exact Edx | rewrite Hat; exact Edy
    | exact Hv | exact Hd].
Qed.

Lemma X_reenter_witness :
  exists ds', preprocess no_str_float small_frame = Ok ds' /\
              preprocess no_str_float ds' = Err (KeyError "east_west").
Proof.
  destruct (preprocess no_str_float small_frame) as [ds' | e] eqn:Hok;
    [| vm_compute in Hok; discriminate Hok].
  exists ds'. split; [reflexivity |].
  apply (X_reenter no_str_float small_frame ds' Hok).
Defined.

(** X4: when [DX] and [DY] convert but the frame has neither a variable
    nor a dimension named [east_west], the call raises
    [KeyError('east_west')]. *)
Theorem X_no_grid fs ds dx dy :
  float_attr fs (ds_attrs ds) "DX" = Ok dx ->
  float_attr fs (ds_attrs ds) "DY" = Ok dy ->
  lookup "east_west" (ds_vars ds) = None ->
  lookup "east_west" (ds_dims ds) = None ->
  add_latlon_coords fs ds = Err (KeyError "east_west").
Proof. apply no_east_west_err. Qed.

Lemma X_no_grid_witness :
  add_latlon_coords no_str_float (mkDs [] [] (ds_attrs small_frame)) =
  Err (KeyError "east_west").
Proof.
  apply (X_no_grid no_str_float (mkDs [] [] (ds_attrs small_frame)) 0.5%Q 0.25%Q);
    reflexivity.
Defined.

(** X5: when the frame already has a variable [orig_lat] next to [lat]
    (or [orig_lon] next to [lon]), the first rename of line 128 makes two
    variables share a name and the call raises [ValueError]. *)
Theorem X_clash fs ds dx dy ew_len ns_len ll_lat ll_lon :
  float_attr fs (ds_attrs ds) "DX" = Ok dx ->
  float_attr fs (ds_attrs ds) "DY" = Ok dy ->
  len_item ds "east_west" = Ok ew_len ->
  len_item ds "north_south" = Ok ns_len ->
  float_attr fs (ds_attrs ds) "SOUTH_WEST_CORNER_LAT" = Ok ll_lat ->
  float_attr fs (ds_attrs ds) "SOUTH_WEST_CORNER_LON" = Ok ll_lon ->
  ((exists v w, lookup "lat" (ds_vars ds) = Some v /\ lookup "orig_lat" (ds_vars ds) = Some w) \/
   (exists v w, lookup "lon" (ds_vars ds) = Some v /\ lookup "orig_lon" (ds_vars ds) = Some w)) ->
  add_latlon_coords fs ds = Err ValueError.
Proof.
  intros Edx Edy Eew Ens Ela Elo Hc.
  unfold add_latlon_coords. cbv zeta.
  rewrite Edx, Edy, Eew, Ens, Ela, Elo. cbn [bind].
  change [("lon", "orig_lon"); ("lat", "orig_lat")] with orig_renames.
  rewrite (rename_orig_clash ds Hc). reflexivity.
Qed.

Lemma X_clash_witness : add_latlon_coords no_str_float orig_lat_frame = Err ValueError.
Proof.
  apply (X_clash no_str_float orig_lat_frame 0.5%Q 0.25%Q 4 3 (-10.125)%Q 20.25%Q);
    try reflexivity.
  left. do 2 eexists. split; reflexivity.
Defined.

(** X6: a successful call keeps the frame's global attributes, and every
    variable other than [lat], [lon], [orig_lat], [orig_lon],
    [north_south] and [east_west] keeps its name, data and attributes; only
    its dimension names go through the two renamings. *)
Theorem X_others fs ds ds' :
  add_latlon_coords fs ds = Ok ds' ->
  ds_attrs ds' = ds_attrs ds /\
  forall k, ~ In k ["lat"; "lon"; "orig_lat"; "orig_lon"; "north_south"; "east_west"] ->
  lookup k (ds_vars ds') =
  option_map (fun v => mkVar (map (fun d => name_get dim_renames (name_get orig_renames d))
                                  (vdims v))
                             (vdata v) (vattrs v))
             (lookup k (ds_vars ds)).
Proof.
  intros H. split.
  - destruct (add_latlon_coords_dims _ _ _ H) as (_ & _ & _ & _ & _ & _ & _ & Hat). exact Hat.
  - intros k Hk. exact (add_latlon_coords_others fs ds ds' k H Hk).
Qed.

Lemma X_others_witness :
  exists ds', add_latlon_coords no_str_float small_frame = Ok ds' /\
  ds_attrs ds' = ds_attrs small_frame /\
  forall k, ~ In k ["lat"; "lon"; "orig_lat"; "orig_lon"; "north_south"; "east_west"] ->
  lookup k (ds_vars ds') =
  option_map (fun v => mkVar (map (fun d => name_get dim_renames (name_get orig_renames d))
                                  (vdims v))
                             (vdata v) (vattrs v))
             (lookup k (ds_vars small_frame)).
Proof.
  destruct (add_latlon_coords no_str_float small_frame) as [ds' | e] eqn:Hok;
    [| vm_compute in Hok; discriminate Hok].
  exists ds'. split; [reflexivity |].
  apply (X_others no_str_float small_frame ds' Hok).
Defined.

(** X7: the new coordinates [lat] and [lon] of a successful call are
    1-d over their own dimension and carry the attributes of the original
    [lat] and [lon] variables. *)
Theorem X_attrs fs ds ds' vlat vlon :
  add_latlon_coords fs ds = Ok ds' ->
  lookup "lat" (ds_vars ds) = Some vlat ->
  lookup "lon" (ds_vars ds) = Some vlon ->
  (exists cs, lookup "lat" (ds_vars ds') = Some (mkVar ["lat"] cs (vattrs vlat))) /\
  (exists cs, lookup "lon" (ds_vars ds') = Some (mkVar ["lon"] cs (vattrs vlon))).
Proof. apply add_latlon_coords_attrs. Qed.

Lemma X_attrs_witness :
  exists ds' vlat vlon,
    add_latlon_coords no_str_float small_frame = Ok ds' /\
    lookup "lat" (ds_vars small_frame) = Some vlat /\
    lookup "lon" (ds_vars small_frame) = Some vlon /\
    (exists cs, lookup "lat" (ds_vars ds') = Some (mkVar ["lat"] cs (vattrs vlat))) /\
    (exists cs, lookup "lon" (ds_vars ds') = Some (mkVar ["lon"] cs (vattrs vlon))).
Proof.
  destruct (add_latlon_coords no_str_float small_frame) as [ds' | e] eqn:Hok;
    [| vm_compute in Hok; discriminate Hok].
  destruct (lookup "lat" (ds_vars small_frame)) as [vlat |] eqn:Hlat;
    [| vm_compute in Hlat; discriminate Hlat].
  destruct (lookup "lon" (ds_vars small_frame)) as [vlon |] eqn:Hlon;
    [| vm_compute in Hlon; discriminate Hlon].
  exists ds', vlat, vlon. do 3 (split; [reflexivity |]).
  apply (X_attrs no_str_float small_frame ds' vlat vlon Hok Hlat Hlon).
Defined.

End ExtraProps.

Module DriverProps.
Import Recipe Driver Spec DriverFacts.
Local Open Scope string_scope.



(** X9: [build_url] is injective: distinct paths give distinct URLs, so
    the input URL and the target URL differ whenever [input_path] and
    [target_path] do. *)
Theorem X_build_url_inj cfg p1 p2 :
  build_url cfg p1 = build_url cfg p2 -> p1 = p2.
Proof.
  unfold build_url. intros H.
  apply string_app_cancel in H. apply string_app_cancel in H.
  apply string_app_cancel in H. exact H.
Qed.

Lemma X_build_url_inj_witness :
  build_url sample_config "LIS_HIST_*.nc" = build_url sample_config "LIS_HIST_*.nc" /\
  "LIS_HIST_*.nc" = "LIS_HIST_*.nc".
Proof.
  split; [reflexivity |].
  apply (X_build_url_inj sample_config); reflexivity.
Defined.

End DriverProps.
